(** * Voice session subsystem of renus_agent_v1: a shallow embedding

    The development follows the hooks and the page that make up the voice
    session:
    - [Transport]   : hooks/useVoiceWebSocket (socket, backoff, send queue)
    - [Session]     : hooks/useSessionPersistence (expiring session record)
    - [Capture]     : hooks/useAudioManager, recording half
    - [Playback]    : hooks/useAudioManager, playback half
    - [Controller]  : pages/VoiceInteraction (inbound message handler)

    React refs and state are fields of a record that is threaded through
    every callback.  Objects created with [new] (sockets, recorders, audio
    elements) and timers live in a store indexed by the order of their
    creation, so handlers that close over different objects stay apart.
    Browser events are the inputs of a [step] function; an event that the
    browser cannot deliver in the current state is a no-op.

    A callback made by useCallback sees the state variables of the render
    that created it.  Where a callback reads such a variable, the value it
    saw is an explicit argument ([isRecording_seen], [isPlaying_seen]); a
    call from outside the hook through the closure of the latest render saw
    the current state, and a call from inside another callback uses the
    closure of that callback's own render.  For playAudio a call from
    outside through the closure of an earlier render is an event of its own
    ([Playback.EnqueueSeen]). *)

From Stdlib Require Import ZArith QArith Lia Ascii String.
From stdpp Require Import base option list gmap strings.

Local Open Scope Z_scope.

(** ** Wire-level types (types/voice.ts) *)

Module Voice.

Inductive AgentState := idle | listening | thinking | speaking.

Inductive MessageType :=
| response | state | error | audio_chunk | transcription | response_complete.

#[global] Instance MessageType_eq_dec : EqDecision MessageType.
Proof. solve_decision. Defined.

(** Optional fields of the TypeScript interface are [option]s; [None] is an
    absent (undefined) field. *)
Record VoiceMessage := {
  type : MessageType;
  msg_state : option AgentState;
  text : option string;
  audio_base64 : option string;
  conversation_id : option string;
  functionalities : option (list string);
  lead_id : option string;
  msg_error : option string
}.

(** JavaScript truthiness of an optional string: present and not empty. *)
Definition truthy (v : option string) : option string :=
  match v with
  | Some s => if decide (s = "") then None else Some s
  | None => None
  end.

End Voice.

(** ** SessionTransport (useVoiceWebSocket) *)

Module Transport.

Inductive ReadyState := CONNECTING | OPEN | CLOSING | CLOSED.

#[global] Instance ReadyState_eq_dec : EqDecision ReadyState.
Proof. solve_decision. Defined.

Inductive ConnectionState := connecting | connected | disconnected | error.

(** Outbound frames built by sendAudio and sendText. *)
Inductive Outbound :=
| AudioMsg (audio format : string)
| TextMsg (text : string).

Record Options := { reconnectAttempts : Z; reconnectDelay : Z }.

Definition default_options : Options :=
  {| reconnectAttempts := 3; reconnectDelay := 1000 |}.

(** The two callbacks the hook hands to setTimeout: the one of ws.onclose
    (increment the counter, connect) and the one of reconnect (connect). *)
Inductive TimerTask := AutoReconnect | ManualConnect.

Record Timer := { task : TimerTask; delay : Z }.

(** Transcript of the hook's console lines and of the timer callbacks that
    ran.  The code never reads it; it is what the properties are stated on. *)
Inductive LogEntry :=
| LConnected                      (* [WebSocket] Connected *)
| LReconnecting (d : Z) (n : Z)   (* Reconnecting in d ms (attempt n/max) *)
| LAttempt (d : Z)                (* callback of an onclose timer armed with delay d ran *)
| LMaxAttempts                    (* Max reconnection attempts reached; onError called *)
| LManual.                        (* Manual reconnect triggered *)

Record Hook := {
  connectionState : ConnectionState;
  lastMessage : option Voice.VoiceMessage;
  errorState : option string;
  sockets : list ReadyState;           (* every WebSocket created, by creation index *)
  wire : list (nat * Outbound);        (* calls of ws.send: socket and frame, oldest first *)
  wsRef : option nat;
  reconnectCountRef : Z;
  reconnectTimeoutRef : option nat;
  messageQueueRef : list Outbound;
  timers : list (nat * Timer);         (* timers that are pending in the event loop *)
  nextTimer : nat;                     (* the id the next setTimeout returns *)
  log : list LogEntry
}.

(** The state after the first render, before the mount effect runs.  Timer
    ids start at 1, as in browsers, so every id is truthy. *)
Definition init : Hook :=
  {| connectionState := disconnected; lastMessage := None; errorState := None;
     sockets := []; wire := []; wsRef := None; reconnectCountRef := 0;
     reconnectTimeoutRef := None; messageQueueRef := []; timers := [];
     nextTimer := 1; log := [] |}.

Definition set_connectionState (c : ConnectionState) (h : Hook) : Hook :=
  {| connectionState := c; lastMessage := lastMessage h; errorState := errorState h;
     sockets := sockets h; wire := wire h; wsRef := wsRef h;
     reconnectCountRef := reconnectCountRef h;
     reconnectTimeoutRef := reconnectTimeoutRef h;
     messageQueueRef := messageQueueRef h; timers := timers h;
     nextTimer := nextTimer h; log := log h |}.

Definition set_lastMessage (m : option Voice.VoiceMessage) (h : Hook) : Hook :=
  {| connectionState := connectionState h; lastMessage := m; errorState := errorState h;
     sockets := sockets h; wire := wire h; wsRef := wsRef h;
     reconnectCountRef := reconnectCountRef h;
     reconnectTimeoutRef := reconnectTimeoutRef h;
     messageQueueRef := messageQueueRef h; timers := timers h;
     nextTimer := nextTimer h; log := log h |}.

Definition set_errorState (e : option string) (h : Hook) : Hook :=
  {| connectionState := connectionState h; lastMessage := lastMessage h; errorState := e;
     sockets := sockets h; wire := wire h; wsRef := wsRef h;
     reconnectCountRef := reconnectCountRef h;
     reconnectTimeoutRef := reconnectTimeoutRef h;
     messageQueueRef := messageQueueRef h; timers := timers h;
     nextTimer := nextTimer h; log := log h |}.

Definition set_sockets (l : list ReadyState) (h : Hook) : Hook :=
  {| connectionState := connectionState h; lastMessage := lastMessage h;
     errorState := errorState h;
     sockets := l; wire := wire h; wsRef := wsRef h;
     reconnectCountRef := reconnectCountRef h;
     reconnectTimeoutRef := reconnectTimeoutRef h;
     messageQueueRef := messageQueueRef h; timers := timers h;
     nextTimer := nextTimer h; log := log h |}.

Definition set_wire (w : list (nat * Outbound)) (h : Hook) : Hook :=
  {| connectionState := connectionState h; lastMessage := lastMessage h;
     errorState := errorState h;
     sockets := sockets h; wire := w; wsRef := wsRef h;
     reconnectCountRef := reconnectCountRef h;
     reconnectTimeoutRef := reconnectTimeoutRef h;
     messageQueueRef := messageQueueRef h; timers := timers h;
     nextTimer := nextTimer h; log := log h |}.

Definition set_wsRef (r : option nat) (h : Hook) : Hook :=
  {| connectionState := connectionState h; lastMessage := lastMessage h;
     errorState := errorState h;
     sockets := sockets h; wire := wire h; wsRef := r;
     reconnectCountRef := reconnectCountRef h;
     reconnectTimeoutRef := reconnectTimeoutRef h;
     messageQueueRef := messageQueueRef h; timers := timers h;
     nextTimer := nextTimer h; log := log h |}.

Definition set_reconnectCountRef (n : Z) (h : Hook) : Hook :=
  {| connectionState := connectionState h; lastMessage := lastMessage h;
     errorState := errorState h;
     sockets := sockets h; wire := wire h; wsRef := wsRef h;
     reconnectCountRef := n;
     reconnectTimeoutRef := reconnectTimeoutRef h;
     messageQueueRef := messageQueueRef h; timers := timers h;
     nextTimer := nextTimer h; log := log h |}.

Definition set_reconnectTimeoutRef (r : option nat) (h : Hook) : Hook :=
  {| connectionState := connectionState h; lastMessage := lastMessage h;
     errorState := errorState h;
     sockets := sockets h; wire := wire h; wsRef := wsRef h;
     reconnectCountRef := reconnectCountRef h;
     reconnectTimeoutRef := r;
     messageQueueRef := messageQueueRef h; timers := timers h;
     nextTimer := nextTimer h; log := log h |}.

Definition set_messageQueueRef (q : list Outbound) (h : Hook) : Hook :=
  {| connectionState := connectionState h; lastMessage := lastMessage h;
     errorState := errorState h;
     sockets := sockets h; wire := wire h; wsRef := wsRef h;
     reconnectCountRef := reconnectCountRef h;
     reconnectTimeoutRef := reconnectTimeoutRef h;
     messageQueueRef := q; timers := timers h;
     nextTimer := nextTimer h; log := log h |}.

Definition set_timers (ts : list (nat * Timer)) (n : nat) (h : Hook) : Hook :=
  {| connectionState := connectionState h; lastMessage := lastMessage h;
     errorState := errorState h;
     sockets := sockets h; wire := wire h; wsRef := wsRef h;
     reconnectCountRef := reconnectCountRef h;
     reconnectTimeoutRef := reconnectTimeoutRef h;
     messageQueueRef := messageQueueRef h; timers := ts;
     nextTimer := n; log := log h |}.

Definition console (e : LogEntry) (h : Hook) : Hook :=
  {| connectionState := connectionState h; lastMessage := lastMessage h;
     errorState := errorState h;
     sockets := sockets h; wire := wire h; wsRef := wsRef h;
     reconnectCountRef := reconnectCountRef h;
     reconnectTimeoutRef := reconnectTimeoutRef h;
     messageQueueRef := messageQueueRef h; timers := timers h;
     nextTimer := nextTimer h; log := log h ++ [e] |}.

(** *** Browser primitives *)

(** wsRef.current?.readyState === WebSocket.OPEN *)
Definition ref_is_open (h : Hook) : bool :=
  match wsRef h with
  | Some s => bool_decide (sockets h !! s = Some OPEN)
  | None => false
  end.

(** ws.send on socket [s]; every call site tests readyState === OPEN first. *)
Definition ws_send (s : nat) (m : Outbound) (h : Hook) : Hook :=
  set_wire (wire h ++ [(s, m)]) h.

(** ws.close(): starts the closing handshake; the close event comes later. *)
Definition ws_close (s : nat) (h : Hook) : Hook :=
  match sockets h !! s with
  | Some CONNECTING | Some OPEN => set_sockets (<[s := CLOSING]> (sockets h)) h
  | _ => h
  end.

Definition setTimeout (tk : TimerTask) (d : Z) (h : Hook) : nat * Hook :=
  (nextTimer h,
   set_timers (timers h ++ [(nextTimer h, {| task := tk; delay := d |})])
              (S (nextTimer h)) h).

Definition clearTimeout (t : nat) (h : Hook) : Hook :=
  set_timers (filter (fun p => p.1 ≠ t) (timers h)) (nextTimer h) h.

(** *** The hook's callbacks *)

(** connect: a no-op on an open socket, otherwise a new socket replaces the
    one in wsRef (whatever its state). *)
Definition connect (h : Hook) : Hook :=
  if ref_is_open h then h
  else
    let s := length (sockets h) in
    set_wsRef (Some s)
      (set_sockets (sockets h ++ [CONNECTING])
         (set_errorState None (set_connectionState connecting h))).

(** The while loop of ws.onopen: shift the head of the queue, send it when the
    socket is open.  Each turn removes one message, so the queue length bounds
    the number of turns. *)
Fixpoint drain (fuel : nat) (s : nat) (h : Hook) : Hook :=
  match fuel with
  | O => h
  | S fuel' =>
      match messageQueueRef h with
      | [] => h
      | m :: q =>
          let h' := set_messageQueueRef q h in
          drain fuel' s
            (if bool_decide (sockets h' !! s = Some OPEN) then ws_send s m h' else h')
      end
  end.

Definition onopen (s : nat) (h : Hook) : Hook :=
  let h1 := console LConnected
              (set_reconnectCountRef 0 (set_connectionState connected h)) in
  drain (length (messageQueueRef h1)) s h1.

Definition onerror (h : Hook) : Hook :=
  set_connectionState error (set_errorState (Some "WebSocket error") h).

Definition onclose (o : Options) (h : Hook) : Hook :=
  let h1 := set_wsRef None (set_connectionState disconnected h) in
  if reconnectCountRef h1 <? reconnectAttempts o then
    let d := reconnectDelay o * 2 ^ reconnectCountRef h1 in
    let h2 := console (LReconnecting d (reconnectCountRef h1 + 1)) h1 in
    let '(t, h3) := setTimeout AutoReconnect d h2 in
    set_reconnectTimeoutRef (Some t) h3
  else
    set_errorState (Some "Failed to reconnect after maximum attempts")
      (console LMaxAttempts h1).

Definition onmessage (data : option Voice.VoiceMessage) (h : Hook) : Hook :=
  match data with
  | Some m => set_lastMessage (Some m) h
  | None => h          (* JSON.parse threw: logged and dropped *)
  end.

Definition run_timer (tm : Timer) (h : Hook) : Hook :=
  match task tm with
  | AutoReconnect =>
      connect (set_reconnectCountRef (reconnectCountRef h + 1)
                 (console (LAttempt (delay tm)) h))
  | ManualConnect => connect h
  end.

Definition disconnect (h : Hook) : Hook :=
  let h1 := match reconnectTimeoutRef h with
            | Some t => clearTimeout t h
            | None => h
            end in
  let h2 := match wsRef h1 with
            | Some s => set_wsRef None (ws_close s h1)
            | None => h1
            end in
  set_reconnectCountRef 0 (set_connectionState disconnected h2).

Definition sendMessage (m : Outbound) (h : Hook) : Hook :=
  match wsRef h with
  | Some s =>
      if bool_decide (sockets h !! s = Some OPEN) then ws_send s m h
      else set_messageQueueRef (messageQueueRef h ++ [m]) h
  | None => set_messageQueueRef (messageQueueRef h ++ [m]) h
  end.

Definition sendAudio (audioData format : string) : Hook -> Hook :=
  sendMessage (AudioMsg audioData format).

Definition sendText (t : string) : Hook -> Hook := sendMessage (TextMsg t).

Definition reconnect (h : Hook) : Hook :=
  let h1 := disconnect (console LManual h) in
  snd (setTimeout ManualConnect 100 (set_reconnectCountRef 0 h1)).

(** *** The event loop *)

Inductive Event :=
| EvOpen (s : nat)
| EvClose (s : nat)
| EvError (s : nat)
| EvMessage (s : nat) (data : option Voice.VoiceMessage)
| EvTimer (t : nat)
| Send (m : Outbound)
| Reconnect
| Unmount
| EvClosing (s : nat).

Definition lookup_timer (t : nat) (h : Hook) : option Timer :=
  snd <$> find (fun p => Nat.eqb p.1 t) (timers h).

(** One task of the event loop.  An event that the browser cannot deliver in
    the current state (open of a socket that is not connecting, close of a
    closed socket, a timer that is not pending) leaves the state unchanged.
    [EvClosing s] is the start of the closing handshake by the server: the
    browser sets the readyState of the open socket to CLOSING and runs no
    handler; the close event follows later. *)
Definition step (o : Options) (e : Event) (h : Hook) : Hook :=
  match e with
  | EvOpen s =>
      if bool_decide (sockets h !! s = Some CONNECTING)
      then onopen s (set_sockets (<[s := OPEN]> (sockets h)) h)
      else h
  | EvClose s =>
      match sockets h !! s with
      | Some CLOSED | None => h
      | Some _ => onclose o (set_sockets (<[s := CLOSED]> (sockets h)) h)
      end
  | EvError s =>
      match sockets h !! s with
      | Some CLOSED | None => h
      | Some _ => onerror h
      end
  | EvMessage s data =>
      if bool_decide (sockets h !! s = Some OPEN) then onmessage data h else h
  | EvTimer t =>
      match lookup_timer t h with
      | Some tm => run_timer tm (clearTimeout t h)
      | None => h
      end
  | Send m => sendMessage m h
  | Reconnect => reconnect h
  | Unmount => disconnect h
  | EvClosing s =>
      if bool_decide (sockets h !! s = Some OPEN)
      then set_sockets (<[s := CLOSING]> (sockets h)) h
      else h
  end.

Definition run (o : Options) (evs : list Event) (h : Hook) : Hook :=
  fold_left (fun h e => step o e h) evs h.

(** The mount effect with autoConnect. *)
Definition mounted : Hook := connect init.

(** Events other than a manual reconnect() and the unmount cleanup. *)
Definition automatic (e : Event) : bool :=
  match e with
  | Reconnect | Unmount => false
  | _ => true
  end.

(** The automatic attempts of a transcript, each with its ordinal since the
    last successful open (or since the start) and the delay it was armed
    with; [k] attempts precede the transcript. *)
Fixpoint attempts_from (k : nat) (l : list LogEntry) : list (nat * Z) :=
  match l with
  | [] => []
  | LConnected :: l' => attempts_from 0 l'
  | LAttempt d :: l' => (S k, d) :: attempts_from (S k) l'
  | _ :: l' => attempts_from k l'
  end.

(** The frames passed to send in a run, in call order. *)
Definition sent (evs : list Event) : list Outbound :=
  omap (fun e => match e with Send m => Some m | _ => None end) evs.

(** The invariant of all runs, [frames] being the frames passed to send so
    far: what went out on the wire followed by what waits in the queue is
    [frames], and nothing waits while wsRef holds an open socket. *)
Definition queue_inv (frames : list Outbound) (h : Hook) : Prop :=
  (ref_is_open h = true -> messageQueueRef h = [])
  /\ (snd <$> wire h) ++ messageQueueRef h = frames.

(** No socket is left and no timer is pending. *)
Definition exhausted (h : Hook) : Prop :=
  wsRef h = None /\ timers h = []
  /\ Forall (fun st => st = CLOSED) (sockets h).

(** Every pending timer has an id that setTimeout has already handed out. *)
Definition fresh_timers (h : Hook) : Prop :=
  Forall (fun p : nat * Timer => (p.1 < nextTimer h)%nat) (timers h).

(** The number of attempts since the last open at the end of a transcript. *)
Fixpoint counter_after (k : nat) (l : list LogEntry) : nat :=
  match l with
  | [] => k
  | LConnected :: l' => counter_after 0 l'
  | LAttempt _ :: l' => counter_after (S k) l'
  | _ :: l' => counter_after k l'
  end.

(** What the backoff promises of one attempt: it is at most the third since
    the last open, and the Nth was armed with 1000 * 2^(N-1) ms. *)
Definition backoff_ok (a : nat * Z) : Prop :=
  (a.1 <= 3)%nat /\ a.2 = 1000 * 2 ^ (Z.of_nat a.1 - 1).

(** The invariant of runs without manual intervention: one socket at a time
    (the one in wsRef), and a timer only while no socket is left, armed
    with the delay that belongs to the current counter. *)
Definition auto_inv (h : Hook) : Prop :=
  0 <= reconnectCountRef h <= 3
  /\ (forall i st, sockets h !! i = Some st -> st <> CLOSED -> wsRef h = Some i)
  /\ (timers h = []
      \/ (wsRef h = None /\ reconnectCountRef h < 3
          /\ exists t, timers h =
               [(t, {| task := AutoReconnect;
                       delay := 1000 * 2 ^ reconnectCountRef h |})]))
  /\ Z.of_nat (counter_after 0 (log h)) = reconnectCountRef h
  /\ Forall backoff_ok (attempts_from 0 (log h)).

End Transport.

(** ** SessionPersistence (useSessionPersistence) *)

Module Session.

Record SessionData := {
  conversationId : option string;
  leadId : option string;
  timestamp : Z;
  expiresAt : Z
}.

(** A localStorage value, as far as the properties below need it: the JSON
    text of a record the hook wrote ([Json]), or a text that JSON.parse
    refuses or turns into null, so that the parse or the access to
    expiresAt throws ([Garbage]; the empty text is falsy and is treated as a
    missing entry).  A text that parses to anything else (a number, a
    string, an object without expiresAt) has no value here: the hook would
    load it as if it were a record, and no property below is about a store
    that holds one. *)
Inductive Stored := Json (d : SessionData) | Garbage (s : string).

Record Options := { sessionTimeout : Z; storageKey : string }.

Definition DEFAULT_SESSION_TIMEOUT : Z := 30 * 60 * 1000.
Definition DEFAULT_STORAGE_KEY : string := "renus_voice_session".

Definition default_options : Options :=
  {| sessionTimeout := DEFAULT_SESSION_TIMEOUT; storageKey := DEFAULT_STORAGE_KEY |}.

Record Hook := {
  sessionData : option SessionData;
  localStorage : gmap string Stored
}.

Definition init (store : gmap string Stored) : Hook :=
  {| sessionData := None; localStorage := store |}.

(** The mount effect; [now] is the reading of Date.now(). *)
Definition loadSession (o : Options) (now : Z) (h : Hook) : Hook :=
  match localStorage h !! storageKey o with
  | None | Some (Garbage EmptyString) => h
  | Some (Garbage _) =>
      {| sessionData := sessionData h;
         localStorage := delete (storageKey o) (localStorage h) |}
  | Some (Json data) =>
      if expiresAt data <? now then
        {| sessionData := sessionData h;
           localStorage := delete (storageKey o) (localStorage h) |}
      else {| sessionData := Some data; localStorage := localStorage h |}
  end.

(** saveSession reads the clock twice, for timestamp and for expiresAt.
    [setItem_ok] is false when localStorage.setItem throws (quota): the catch
    block then logs and the state is left as it was. *)
Definition saveSession (o : Options) (conversationId : string)
    (leadId : option string) (now_timestamp now_expires : Z)
    (setItem_ok : bool) (h : Hook) : Hook :=
  let data := {| conversationId := Some conversationId; leadId := leadId;
                 timestamp := now_timestamp;
                 expiresAt := now_expires + sessionTimeout o |} in
  if setItem_ok then
    {| sessionData := Some data;
       localStorage := <[storageKey o := Json data]> (localStorage h) |}
  else h.

Definition clearSession (o : Options) (h : Hook) : Hook :=
  {| sessionData := None; localStorage := delete (storageKey o) (localStorage h) |}.

Definition refreshSession (o : Options) (now : Z) (setItem_ok : bool)
    (h : Hook) : Hook :=
  match sessionData h with
  | None => h
  | Some d =>
      let updated := {| conversationId := conversationId d; leadId := leadId d;
                        timestamp := timestamp d;
                        expiresAt := now + sessionTimeout o |} in
      if setItem_ok then
        {| sessionData := Some updated;
           localStorage := <[storageKey o := Json updated]> (localStorage h) |}
      else h
  end.

Definition isSessionValid (now : Z) (h : Hook) : bool :=
  match sessionData h with
  | None => false
  | Some d => now <? expiresAt d
  end.

(** The conversationId and leadId the hook returns: a value or null. *)
Definition returned_conversationId (h : Hook) : option string :=
  Voice.truthy (sessionData h ≫= conversationId).

Definition returned_leadId (h : Hook) : option string :=
  Voice.truthy (sessionData h ≫= leadId).

End Session.

(** ** AudioCaptureEngine (useAudioManager, recording half) *)

Module Capture.

Record AudioConfig := {
  sampleRate : Z;
  channels : Z;
  chunkSize : Z;
  chunkInterval : Z;
  silenceThreshold : Q;
  silenceDuration : Z
}.

Definition DEFAULT_AUDIO_CONFIG : AudioConfig :=
  {| sampleRate := 16000; channels := 1; chunkSize := 1600; chunkInterval := 100;
     silenceThreshold := 1 # 100; silenceDuration := 1500 |}.

(** The options of the hook; for the two callbacks only their presence
    matters to the hook's own state. *)
Record Options := {
  config : AudioConfig;
  onAudioChunk : bool;
  onRecordingComplete : bool
}.

Definition default_options : Options :=
  {| config := DEFAULT_AUDIO_CONFIG; onAudioChunk := true;
     onRecordingComplete := true |}.

Inductive RecorderState := inactive | recording | paused.

#[global] Instance RecorderState_eq_dec : EqDecision RecorderState.
Proof. solve_decision. Defined.

(** A MediaRecorder object: its state, and whether stop() has been called
    and its stop event is still to be delivered. *)
Record Recorder := { rstate : RecorderState; stop_queued : bool }.

(** The callbacks the hook hands to setTimeout and setInterval. *)
Inductive TimerTask :=
| SilenceStop                (* log, then stopRecording() *)
| ChunkTick (r : nat).       (* requestData() on recorder r while it records *)

Record Timer := { task : TimerTask; delay : Z }.

Record Hook := {
  isRecording : bool;
  audioLevel : Q;
  errorState : option string;
  recorders : list Recorder;      (* MediaRecorder objects, by creation index *)
  streams : list bool;            (* MediaStream objects: true while the tracks run *)
  contexts : list bool;           (* AudioContext objects: true until close() *)
  mediaRecorderRef : option nat;
  audioContextRef : option nat;
  analyserRef : option nat;
  streamRef : option nat;
  chunksRef : list string;
  silenceTimeoutRef : option nat;
  chunkIntervalRef : option nat;
  timers : list (nat * Timer);    (* pending timeouts and running intervals *)
  nextTimer : nat;
  frames : list bool;             (* requestAnimationFrame callbacks not yet run:
                                     each is a monitorAudioLevel closure, stored
                                     as the isRecording it closed over *)
  completed : list string         (* blobs handed to onRecordingComplete *)
}.

Definition init : Hook :=
  {| isRecording := false; audioLevel := 0%Q; errorState := None; recorders := [];
     streams := []; contexts := []; mediaRecorderRef := None;
     audioContextRef := None; analyserRef := None; streamRef := None;
     chunksRef := []; silenceTimeoutRef := None; chunkIntervalRef := None;
     timers := []; nextTimer := 1; frames := []; completed := [] |}.

Definition set_isRecording (v : bool) (h : Hook) : Hook :=
  {| isRecording := v; audioLevel := audioLevel h;
     errorState := errorState h; recorders := recorders h;
     streams := streams h; contexts := contexts h;
     mediaRecorderRef := mediaRecorderRef h;
     audioContextRef := audioContextRef h; analyserRef := analyserRef h;
     streamRef := streamRef h; chunksRef := chunksRef h;
     silenceTimeoutRef := silenceTimeoutRef h;
     chunkIntervalRef := chunkIntervalRef h; timers := timers h;
     nextTimer := nextTimer h; frames := frames h;
     completed := completed h |}.

Definition set_audioLevel (v : Q) (h : Hook) : Hook :=
  {| isRecording := isRecording h; audioLevel := v;
     errorState := errorState h; recorders := recorders h;
     streams := streams h; contexts := contexts h;
     mediaRecorderRef := mediaRecorderRef h;
     audioContextRef := audioContextRef h; analyserRef := analyserRef h;
     streamRef := streamRef h; chunksRef := chunksRef h;
     silenceTimeoutRef := silenceTimeoutRef h;
     chunkIntervalRef := chunkIntervalRef h; timers := timers h;
     nextTimer := nextTimer h; frames := frames h;
     completed := completed h |}.

Definition set_errorState (v : option string) (h : Hook) : Hook :=
  {| isRecording := isRecording h; audioLevel := audioLevel h;
     errorState := v; recorders := recorders h; streams := streams h;
     contexts := contexts h; mediaRecorderRef := mediaRecorderRef h;
     audioContextRef := audioContextRef h; analyserRef := analyserRef h;
     streamRef := streamRef h; chunksRef := chunksRef h;
     silenceTimeoutRef := silenceTimeoutRef h;
     chunkIntervalRef := chunkIntervalRef h; timers := timers h;
     nextTimer := nextTimer h; frames := frames h;
     completed := completed h |}.

Definition set_recorders (v : list Recorder) (h : Hook) : Hook :=
  {| isRecording := isRecording h; audioLevel := audioLevel h;
     errorState := errorState h; recorders := v; streams := streams h;
     contexts := contexts h; mediaRecorderRef := mediaRecorderRef h;
     audioContextRef := audioContextRef h; analyserRef := analyserRef h;
     streamRef := streamRef h; chunksRef := chunksRef h;
     silenceTimeoutRef := silenceTimeoutRef h;
     chunkIntervalRef := chunkIntervalRef h; timers := timers h;
     nextTimer := nextTimer h; frames := frames h;
     completed := completed h |}.

Definition set_streams (v : list bool) (h : Hook) : Hook :=
  {| isRecording := isRecording h; audioLevel := audioLevel h;
     errorState := errorState h; recorders := recorders h; streams := v;
     contexts := contexts h; mediaRecorderRef := mediaRecorderRef h;
     audioContextRef := audioContextRef h; analyserRef := analyserRef h;
     streamRef := streamRef h; chunksRef := chunksRef h;
     silenceTimeoutRef := silenceTimeoutRef h;
     chunkIntervalRef := chunkIntervalRef h; timers := timers h;
     nextTimer := nextTimer h; frames := frames h;
     completed := completed h |}.

Definition set_contexts (v : list bool) (h : Hook) : Hook :=
  {| isRecording := isRecording h; audioLevel := audioLevel h;
     errorState := errorState h; recorders := recorders h;
     streams := streams h; contexts := v;
     mediaRecorderRef := mediaRecorderRef h;
     audioContextRef := audioContextRef h; analyserRef := analyserRef h;
     streamRef := streamRef h; chunksRef := chunksRef h;
     silenceTimeoutRef := silenceTimeoutRef h;
     chunkIntervalRef := chunkIntervalRef h; timers := timers h;
     nextTimer := nextTimer h; frames := frames h;
     completed := completed h |}.

Definition set_mediaRecorderRef (v : option nat) (h : Hook) : Hook :=
  {| isRecording := isRecording h; audioLevel := audioLevel h;
     errorState := errorState h; recorders := recorders h;
     streams := streams h; contexts := contexts h; mediaRecorderRef := v;
     audioContextRef := audioContextRef h; analyserRef := analyserRef h;
     streamRef := streamRef h; chunksRef := chunksRef h;
     silenceTimeoutRef := silenceTimeoutRef h;
     chunkIntervalRef := chunkIntervalRef h; timers := timers h;
     nextTimer := nextTimer h; frames := frames h;
     completed := completed h |}.

Definition set_audioContextRef (v : option nat) (h : Hook) : Hook :=
  {| isRecording := isRecording h; audioLevel := audioLevel h;
     errorState := errorState h; recorders := recorders h;
     streams := streams h; contexts := contexts h;
     mediaRecorderRef := mediaRecorderRef h; audioContextRef := v;
     analyserRef := analyserRef h; streamRef := streamRef h;
     chunksRef := chunksRef h; silenceTimeoutRef := silenceTimeoutRef h;
     chunkIntervalRef := chunkIntervalRef h; timers := timers h;
     nextTimer := nextTimer h; frames := frames h;
     completed := completed h |}.

Definition set_analyserRef (v : option nat) (h : Hook) : Hook :=
  {| isRecording := isRecording h; audioLevel := audioLevel h;
     errorState := errorState h; recorders := recorders h;
     streams := streams h; contexts := contexts h;
     mediaRecorderRef := mediaRecorderRef h;
     audioContextRef := audioContextRef h; analyserRef := v;
     streamRef := streamRef h; chunksRef := chunksRef h;
     silenceTimeoutRef := silenceTimeoutRef h;
     chunkIntervalRef := chunkIntervalRef h; timers := timers h;
     nextTimer := nextTimer h; frames := frames h;
     completed := completed h |}.

Definition set_streamRef (v : option nat) (h : Hook) : Hook :=
  {| isRecording := isRecording h; audioLevel := audioLevel h;
     errorState := errorState h; recorders := recorders h;
     streams := streams h; contexts := contexts h;
     mediaRecorderRef := mediaRecorderRef h;
     audioContextRef := audioContextRef h; analyserRef := analyserRef h;
     streamRef := v; chunksRef := chunksRef h;
     silenceTimeoutRef := silenceTimeoutRef h;
     chunkIntervalRef := chunkIntervalRef h; timers := timers h;
     nextTimer := nextTimer h; frames := frames h;
     completed := completed h |}.

Definition set_chunksRef (v : list string) (h : Hook) : Hook :=
  {| isRecording := isRecording h; audioLevel := audioLevel h;
     errorState := errorState h; recorders := recorders h;
     streams := streams h; contexts := contexts h;
     mediaRecorderRef := mediaRecorderRef h;
     audioContextRef := audioContextRef h; analyserRef := analyserRef h;
     streamRef := streamRef h; chunksRef := v;
     silenceTimeoutRef := silenceTimeoutRef h;
     chunkIntervalRef := chunkIntervalRef h; timers := timers h;
     nextTimer := nextTimer h; frames := frames h;
     completed := completed h |}.

Definition set_silenceTimeoutRef (v : option nat) (h : Hook) : Hook :=
  {| isRecording := isRecording h; audioLevel := audioLevel h;
     errorState := errorState h; recorders := recorders h;
     streams := streams h; contexts := contexts h;
     mediaRecorderRef := mediaRecorderRef h;
     audioContextRef := audioContextRef h; analyserRef := analyserRef h;
     streamRef := streamRef h; chunksRef := chunksRef h;
     silenceTimeoutRef := v; chunkIntervalRef := chunkIntervalRef h;
     timers := timers h; nextTimer := nextTimer h; frames := frames h;
     completed := completed h |}.

Definition set_chunkIntervalRef (v : option nat) (h : Hook) : Hook :=
  {| isRecording := isRecording h; audioLevel := audioLevel h;
     errorState := errorState h; recorders := recorders h;
     streams := streams h; contexts := contexts h;
     mediaRecorderRef := mediaRecorderRef h;
     audioContextRef := audioContextRef h; analyserRef := analyserRef h;
     streamRef := streamRef h; chunksRef := chunksRef h;
     silenceTimeoutRef := silenceTimeoutRef h; chunkIntervalRef := v;
     timers := timers h; nextTimer := nextTimer h; frames := frames h;
     completed := completed h |}.

Definition set_timers (v : list (nat * Timer)) (h : Hook) : Hook :=
  {| isRecording := isRecording h; audioLevel := audioLevel h;
     errorState := errorState h; recorders := recorders h;
     streams := streams h; contexts := contexts h;
     mediaRecorderRef := mediaRecorderRef h;
     audioContextRef := audioContextRef h; analyserRef := analyserRef h;
     streamRef := streamRef h; chunksRef := chunksRef h;
     silenceTimeoutRef := silenceTimeoutRef h;
     chunkIntervalRef := chunkIntervalRef h; timers := v;
     nextTimer := nextTimer h; frames := frames h;
     completed := completed h |}.

Definition set_nextTimer (v : nat) (h : Hook) : Hook :=
  {| isRecording := isRecording h; audioLevel := audioLevel h;
     errorState := errorState h; recorders := recorders h;
     streams := streams h; contexts := contexts h;
     mediaRecorderRef := mediaRecorderRef h;
     audioContextRef := audioContextRef h; analyserRef := analyserRef h;
     streamRef := streamRef h; chunksRef := chunksRef h;
     silenceTimeoutRef := silenceTimeoutRef h;
     chunkIntervalRef := chunkIntervalRef h; timers := timers h;
     nextTimer := v; frames := frames h; completed := completed h |}.

Definition set_frames (v : list bool) (h : Hook) : Hook :=
  {| isRecording := isRecording h; audioLevel := audioLevel h;
     errorState := errorState h; recorders := recorders h;
     streams := streams h; contexts := contexts h;
     mediaRecorderRef := mediaRecorderRef h;
     audioContextRef := audioContextRef h; analyserRef := analyserRef h;
     streamRef := streamRef h; chunksRef := chunksRef h;
     silenceTimeoutRef := silenceTimeoutRef h;
     chunkIntervalRef := chunkIntervalRef h; timers := timers h;
     nextTimer := nextTimer h; frames := v; completed := completed h |}.

Definition set_completed (v : list string) (h : Hook) : Hook :=
  {| isRecording := isRecording h; audioLevel := audioLevel h;
     errorState := errorState h; recorders := recorders h;
     streams := streams h; contexts := contexts h;
     mediaRecorderRef := mediaRecorderRef h;
     audioContextRef := audioContextRef h; analyserRef := analyserRef h;
     streamRef := streamRef h; chunksRef := chunksRef h;
     silenceTimeoutRef := silenceTimeoutRef h;
     chunkIntervalRef := chunkIntervalRef h; timers := timers h;
     nextTimer := nextTimer h; frames := frames h; completed := v |}.

Definition setTimer (tk : TimerTask) (d : Z) (h : Hook) : nat * Hook :=
  (nextTimer h,
   set_nextTimer (S (nextTimer h))
     (set_timers (timers h ++ [(nextTimer h, {| task := tk; delay := d |})]) h)).

(** clearTimeout and clearInterval. *)
Definition clearTimer (t : nat) (h : Hook) : Hook :=
  set_timers (filter (fun p => p.1 ≠ t) (timers h)) h.

Definition lookup_timer (t : nat) (h : Hook) : option Timer :=
  snd <$> find (fun p => Nat.eqb p.1 t) (timers h).

Definition Qlt_bool (x y : Q) : bool := negb (Qle_bool y x).

(** monitorAudioLevel, as one of its closures.  [isRecording_seen] is the
    value of the isRecording state in the render that created the closure
    (it is a dependency of the useCallback); [level] is the result of the
    floating-point RMS computation, min(100, rms / 255 * 100), on the
    analyser's current data. *)
Definition monitorAudioLevel (c : AudioConfig) (isRecording_seen : bool)
    (level : Q) (h : Hook) : Hook :=
  match analyserRef h with
  | None => h
  | Some _ =>
      let h1 := set_audioLevel level h in
      let h2 :=
        if Qlt_bool level (silenceThreshold c * 100) then
          match silenceTimeoutRef h1 with
          | None =>
              let '(t, h') := setTimer SilenceStop (silenceDuration c) h1 in
              set_silenceTimeoutRef (Some t) h'
          | Some _ => h1
          end
        else
          match silenceTimeoutRef h1 with
          | Some t => set_silenceTimeoutRef None (clearTimer t h1)
          | None => h1
          end in
      if isRecording_seen then set_frames (frames h2 ++ [isRecording_seen]) h2
      else h2
  end.

(** MediaRecorder.stop(): the recorder becomes inactive at once; its last
    dataavailable event and its stop event are delivered later. *)
Definition recorder_stop (r : nat) (h : Hook) : Hook :=
  set_recorders (<[r := {| rstate := inactive; stop_queued := true |}]> (recorders h)) h.

Definition stopRecording (h : Hook) : Hook :=
  let h1 := match chunkIntervalRef h with
            | Some t => set_chunkIntervalRef None (clearTimer t h)
            | None => h
            end in
  let h2 := match silenceTimeoutRef h1 with
            | Some t => set_silenceTimeoutRef None (clearTimer t h1)
            | None => h1
            end in
  let h3 := match mediaRecorderRef h2 with
            | Some r =>
                match recorders h2 !! r with
                | Some rec =>
                    if decide (rstate rec = inactive) then h2 else recorder_stop r h2
                | None => h2
                end
            | None => h2
            end in
  let h4 := match streamRef h3 with
            | Some s => set_streamRef None (set_streams (<[s := false]> (streams h3)) h3)
            | None => h3
            end in
  let h5 := match audioContextRef h4 with
            | Some c =>
                set_audioContextRef None (set_contexts (<[c := false]> (contexts h4)) h4)
            | None => h4
            end in
  set_audioLevel 0%Q (set_isRecording false h5).

(** How the awaited getUserMedia and the MediaRecorder constructor end. *)
Inductive MediaOutcome :=
| Denied          (* getUserMedia rejects *)
| Unsupported     (* new MediaRecorder throws: the mime type is not supported *)
| Granted.

(** startRecording, as the closure of a render in which the isRecording
    state was [isRecording_seen]: the monitorAudioLevel it calls is the
    closure of the same render.  [level] is the first reading of the
    analyser. *)
Definition startRecording_in_render (o : Options) (isRecording_seen : bool)
    (outcome : MediaOutcome) (level : Q) (h : Hook) : Hook :=
  let h0 := set_errorState None h in
  match outcome with
  | Denied => set_errorState (Some "getUserMedia failed") h0
  | _ =>
      let s := length (streams h0) in
      let h1 := set_streamRef (Some s) (set_streams (streams h0 ++ [true]) h0) in
      let a := length (contexts h1) in
      let h2 := set_analyserRef (Some a)
                  (set_audioContextRef (Some a)
                     (set_contexts (contexts h1 ++ [true]) h1)) in
      match outcome with
      | Unsupported => set_errorState (Some "MediaRecorder failed") h2
      | _ =>
          let r := length (recorders h2) in
          let h3 := set_chunksRef []
                      (set_mediaRecorderRef (Some r)
                         (set_recorders
                            (recorders h2 ++
                               [{| rstate := recording; stop_queued := false |}])
                            h2)) in
          let h4 := set_isRecording true h3 in
          let h5 := monitorAudioLevel (config o) isRecording_seen level h4 in
          if onAudioChunk o then
            let '(t, h6) := setTimer (ChunkTick r) (chunkInterval (config o)) h5 in
            set_chunkIntervalRef (Some t) h6
          else h5
      end
  end.

(** A call of startRecording by the page: the closure it holds is the one
    of the latest render, which saw the current isRecording. *)
Definition startRecording (o : Options) (outcome : MediaOutcome) (level : Q)
    (h : Hook) : Hook :=
  startRecording_in_render o (isRecording h) outcome level h.

(** mediaRecorder.ondataavailable *)
Definition ondataavailable (data : string) (h : Hook) : Hook :=
  if (0 <? String.length data)%nat then set_chunksRef (chunksRef h ++ [data]) h
  else h.

(** mediaRecorder.onstop: the blob is assembled from the chunks at once and
    handed to onRecordingComplete when the reader has loaded it. *)
Definition onstop (o : Options) (h : Hook) : Hook :=
  let blob := String.concat "" (chunksRef h) in
  let h1 := if onRecordingComplete o then set_completed (completed h ++ [blob]) h
            else h in
  set_chunksRef [] h1.

Inductive Event :=
| EvFrame (level : Q)               (* the oldest pending animation frame callback runs *)
| EvTimer (t : nat)                 (* a timeout fires or an interval ticks *)
| EvData (r : nat) (data : string)  (* dataavailable of a recording recorder *)
| EvStopped (r : nat) (data : string). (* last dataavailable, then stop, of recorder r *)

Definition step (o : Options) (e : Event) (h : Hook) : Hook :=
  match e with
  | EvFrame level =>
      match frames h with
      | seen :: rest => monitorAudioLevel (config o) seen level (set_frames rest h)
      | [] => h
      end
  | EvTimer t =>
      match lookup_timer t h with
      | Some {| task := SilenceStop |} => stopRecording (clearTimer t h)
      | Some {| task := ChunkTick _ |} => h
      | None => h
      end
  | EvData r data =>
      match recorders h !! r with
      | Some {| rstate := recording |} => ondataavailable data h
      | _ => h
      end
  | EvStopped r data =>
      match recorders h !! r with
      | Some {| rstate := st; stop_queued := true |} =>
          onstop o (ondataavailable data
                      (set_recorders
                         (<[r := {| rstate := st; stop_queued := false |}]> (recorders h))
                         h))
      | _ => h
      end
  end.

Definition run (o : Options) (evs : list Event) (h : Hook) : Hook :=
  fold_left (fun h e => step o e h) evs h.

(** event.data.size > 0 *)
Definition has_data (data : string) : bool := (0 <? String.length data)%nat.

(** Every pending timer has an id that setTimer has already handed out. *)
Definition fresh_timers (h : Hook) : Prop :=
  Forall (fun p : nat * Timer => (p.1 < nextTimer h)%nat) (timers h).

(** Nothing is held and nothing is running: the state in which the hook
    starts and in which stopRecording leaves it. *)
Definition released (h : Hook) : Prop :=
  isRecording h = false /\ audioLevel h = 0%Q
  /\ chunkIntervalRef h = None /\ silenceTimeoutRef h = None
  /\ streamRef h = None /\ audioContextRef h = None
  /\ (forall r rec, mediaRecorderRef h = Some r -> recorders h !! r = Some rec ->
        rstate rec = inactive).

End Capture.

(** ** AudioPlaybackQueue (useAudioManager, playback half) *)

Module Playback.

(** An Audio element the hook created: playing, ended, or failed (error
    event, or play() rejected). *)
Inductive AudioStatus := Playing | Ended | Failed.

#[global] Instance AudioStatus_eq_dec : EqDecision AudioStatus.
Proof. solve_decision. Defined.

Record Hook := {
  isPlaying : bool;
  errorState : option string;
  audioQueueRef : list string;
  currentAudioRef : option nat;
  audios : list (string * AudioStatus)   (* Audio elements with their payload,
                                            in the order playback started *)
}.

Definition init : Hook :=
  {| isPlaying := false; errorState := None; audioQueueRef := [];
     currentAudioRef := None; audios := [] |}.

Definition set_isPlaying (v : bool) (h : Hook) : Hook :=
  {| isPlaying := v; errorState := errorState h;
     audioQueueRef := audioQueueRef h; currentAudioRef := currentAudioRef h;
     audios := audios h |}.

Definition set_errorState (v : option string) (h : Hook) : Hook :=
  {| isPlaying := isPlaying h; errorState := v;
     audioQueueRef := audioQueueRef h; currentAudioRef := currentAudioRef h;
     audios := audios h |}.

Definition set_audioQueueRef (v : list string) (h : Hook) : Hook :=
  {| isPlaying := isPlaying h; errorState := errorState h;
     audioQueueRef := v; currentAudioRef := currentAudioRef h;
     audios := audios h |}.

Definition set_currentAudioRef (v : option nat) (h : Hook) : Hook :=
  {| isPlaying := isPlaying h; errorState := errorState h;
     audioQueueRef := audioQueueRef h; currentAudioRef := v;
     audios := audios h |}.

Definition set_audios (v : list (string * AudioStatus)) (h : Hook) : Hook :=
  {| isPlaying := isPlaying h; errorState := errorState h;
     audioQueueRef := audioQueueRef h; currentAudioRef := currentAudioRef h;
     audios := v |}.

(** Whether atob accepts the payload (forgiving base64 decoding: white space
    is skipped, up to two trailing = are removed when the length is a
    multiple of four, a length of 1 modulo 4 or a character outside the
    alphabet is refused). *)
Definition base64_char (c : ascii) : bool :=
  let n := nat_of_ascii c in
  ((65 <=? n) && (n <=? 90) || (97 <=? n) && (n <=? 122)
   || (48 <=? n) && (n <=? 57) || (n =? 43) || (n =? 47))%nat.

Definition ascii_whitespace (c : ascii) : bool :=
  let n := nat_of_ascii c in
  ((n =? 9) || (n =? 10) || (n =? 12) || (n =? 13) || (n =? 32))%nat.

Definition is_pad (c : ascii) : bool := (nat_of_ascii c =? 61)%nat.

Definition strip_padding (cs : list ascii) : list ascii :=
  match rev cs with
  | p1 :: p2 :: r =>
      if is_pad p1 then (if is_pad p2 then rev r else rev (p2 :: r)) else cs
  | [p1] => if is_pad p1 then [] else cs
  | [] => cs
  end.

Definition atob_ok (payload : string) : bool :=
  let cs := List.filter (fun c => negb (ascii_whitespace c))
              (list_ascii_of_string payload) in
  let cs := if (length cs mod 4 =? 0)%nat then strip_padding cs else cs in
  negb (length cs mod 4 =? 1)%nat && forallb base64_char cs.

(** playAudio, as the closure of a render in which the isPlaying state was
    [isPlaying_seen] (a dependency of the useCallback). *)
Definition playAudio_in_render (isPlaying_seen : bool) (base64Audio : string)
    (h : Hook) : Hook :=
  let h0 := set_errorState None h in
  if isPlaying_seen then
    set_audioQueueRef (audioQueueRef h0 ++ [base64Audio]) h0
  else
    let h1 := set_isPlaying true h0 in
    if atob_ok base64Audio then
      let a := length (audios h1) in
      set_currentAudioRef (Some a) (set_audios (audios h1 ++ [(base64Audio, Playing)]) h1)
    else
      (* atob throws: the catch block *)
      set_isPlaying false (set_errorState (Some "atob failed") h1).

(** A call of playAudio through the closure of the latest render, made after
    React has rendered the current state.  A caller that still holds the
    closure of an earlier render (two calls in a row before the next render,
    or a callback registered once) calls [playAudio_in_render] with the
    value that render saw: the event [EnqueueSeen] below. *)
Definition playAudio (base64Audio : string) (h : Hook) : Hook :=
  playAudio_in_render (isPlaying h) base64Audio h.

(** audio.onended.  The playAudio it calls belongs to the render of the
    closure that started this audio, so it saw isPlaying = false. *)
Definition onended (h : Hook) : Hook :=
  let h1 := set_currentAudioRef None (set_isPlaying false h) in
  match audioQueueRef h1 with
  | nextAudio :: rest =>
      let h2 := set_audioQueueRef rest h1 in
      if decide (nextAudio = "") then h2
      else playAudio_in_render false nextAudio h2
  | [] => h1
  end.

(** audio.onerror, followed by the catch block that the rejection reaches. *)
Definition onerror (h : Hook) : Hook :=
  let h1 := set_currentAudioRef None (set_isPlaying false h) in
  set_isPlaying false (set_errorState (Some "Audio playback failed") h1).

(** audio.play() rejects: only the catch block runs. *)
Definition play_rejected (h : Hook) : Hook :=
  set_isPlaying false (set_errorState (Some "play() rejected") h).

Inductive Event :=
| Enqueue (base64Audio : string)   (* playAudio called by the page *)
| EvEnded (a : nat)
| EvError (a : nat)
| EvPlayRejected (a : nat)
| EnqueueSeen (isPlaying_seen : bool) (base64Audio : string).
    (* playAudio called through a closure that an earlier render created *)

Definition set_status (a : nat) (st : AudioStatus) (h : Hook) : Hook :=
  match audios h !! a with
  | Some (payload, _) => set_audios (<[a := (payload, st)]> (audios h)) h
  | None => h
  end.

(** The events of an audio element reach the hook only while it plays. *)
Definition step (e : Event) (h : Hook) : Hook :=
  match e with
  | Enqueue payload => playAudio payload h
  | EvEnded a =>
      match audios h !! a with
      | Some (_, Playing) => onended (set_status a Ended h)
      | _ => h
      end
  | EvError a =>
      match audios h !! a with
      | Some (_, Playing) => onerror (set_status a Failed h)
      | _ => h
      end
  | EvPlayRejected a =>
      match audios h !! a with
      | Some (_, Playing) => play_rejected (set_status a Failed h)
      | _ => h
      end
  | EnqueueSeen isPlaying_seen payload =>
      playAudio_in_render isPlaying_seen payload h
  end.

Definition run (evs : list Event) (h : Hook) : Hook :=
  fold_left (fun h e => step e h) evs h.

(** The payloads in the order in which their playback started. *)
Definition play_order (h : Hook) : list string := fst <$> audios h.

(** The payloads in the order of the playAudio calls of a run. *)
Definition enqueue_order (evs : list Event) : list string :=
  omap (fun e => match e with
                 | Enqueue p | EnqueueSeen _ p => Some p
                 | _ => None
                 end) evs.

(** The elements that are playing now. *)
Definition now_playing (h : Hook) : list string :=
  fst <$> List.filter (fun p => bool_decide (p.2 = Playing)) (audios h).

(** An element that is not playing (it has ended or failed). *)
Definition silent (x : string * AudioStatus) : Prop := x.2 <> Playing.

(** The invariant of all runs: while isPlaying holds, the last element
    created plays and no other does; otherwise none plays. *)
Definition exclusive_inv (h : Hook) : Prop :=
  if isPlaying h
  then exists l payload, audios h = l ++ [(payload, Playing)] /\ Forall silent l
  else Forall silent (audios h).

(** Events other than a call through the closure of an earlier render. *)
Definition latest_closure (e : Event) : bool :=
  match e with
  | EnqueueSeen _ _ => false
  | _ => true
  end.

(** Events of a run in which nothing fails: calls through the closure of the
    latest render with a payload that is not empty and that atob accepts,
    and ended events. *)
Definition clean (e : Event) : Prop :=
  match e with
  | Enqueue payload => payload <> ""%string /\ atob_ok payload = true
  | EvEnded _ => True
  | EvError _ | EvPlayRejected _ | EnqueueSeen _ _ => False
  end.

Definition ended (l : list string) : list (string * AudioStatus) :=
  (fun payload => (payload, Ended)) <$> l.

(** The invariant of such runs, [enq] being the payloads enqueued so far:
    what has started and what waits make up [enq], in order; while
    isPlaying holds the last element created plays and all others have
    ended; otherwise all have ended and nothing waits. *)
Definition fifo_inv (enq : list string) (h : Hook) : Prop :=
  play_order h ++ audioQueueRef h = enq
  /\ Forall (fun payload => payload <> ""%string /\ atob_ok payload = true)
       (audioQueueRef h)
  /\ if isPlaying h
     then exists l payload,
            audios h = ended l ++ [(payload, Playing)]
            /\ currentAudioRef h = Some (length l)
     else audioQueueRef h = [] /\ exists l, audios h = ended l.

End Playback.

(** ** VoiceSessionController (pages/VoiceInteraction) *)

Module Controller.
Import Voice.

Inductive Speaker := user | agent.

(** The id is the clock reading followed by -user or -agent; the reading is
    also the timestamp. *)
Record ConversationEntry := {
  id : Z * Speaker;
  timestamp : Z;
  speaker : Speaker;
  entry_text : string;
  entry_state : AgentState
}.

Record VoiceInteractionState := {
  agentState : AgentState;
  conversationId : option string;
  leadId : option string;
  transcriptions : list ConversationEntry;
  active_functionalities : list string;
  isActive : bool;
  isConnected : bool;
  error : option string
}.

(** Calls into the other hooks and services, in program order. *)
Inductive Effect :=
| SaveSession (conversationId : string) (leadId : string)
| ResponseReceived (conversationId : string)
| PlayAudio (audio_base64 : string)
| Toast (description : string)
| TrackError (message : string).

Record Page := {
  interactionState : VoiceInteractionState;
  currentTranscription : string;
  effects : list Effect
}.

Definition initial_state (savedConversationId savedLeadId : option string) :
    VoiceInteractionState :=
  {| agentState := idle; conversationId := savedConversationId;
     leadId := savedLeadId; transcriptions := []; active_functionalities := [];
     isActive := false; isConnected := false; error := None |}.

Definition initial_page (savedConversationId savedLeadId : option string) : Page :=
  {| interactionState := initial_state savedConversationId savedLeadId;
     currentTranscription := ""; effects := [] |}.

(** What a handler returns: the page after it ran to its end, or the
    exception that left it (everything it changes, it changes after the last
    point where it can throw). *)
Inductive Outcome :=
| Done (p : Page)
| ReferenceError (name : string).

Definition emit (e : Effect) (p : Page) : Page :=
  {| interactionState := interactionState p;
     currentTranscription := currentTranscription p;
     effects := effects p ++ [e] |}.

Definition set_currentTranscription (t : string) (p : Page) : Page :=
  {| interactionState := interactionState p; currentTranscription := t;
     effects := effects p |}.

Definition setInteractionState (f : VoiceInteractionState -> VoiceInteractionState)
    (p : Page) : Page :=
  {| interactionState := f (interactionState p);
     currentTranscription := currentTranscription p; effects := effects p |}.

(** The response branch of onMessage.  The two lines that compute
    newConversationId and newLeadId stand before the state updater, where no
    variable [prev] is in scope: when the message field is falsy the right
    operand of || is evaluated and the lookup of prev throws. *)
Definition on_response (now : Z) (message : VoiceMessage) (t : string)
    (p : Page) : Outcome :=
  let entry := {| id := (now, agent); timestamp := now; speaker := agent;
                  entry_text := t;
                  entry_state := default speaking (msg_state message) |} in
  match truthy (conversation_id message) with
  | None => ReferenceError "prev"
  | Some newConversationId =>
      match truthy (lead_id message) with
      | None => ReferenceError "prev"
      | Some newLeadId =>
          let p1 := setInteractionState (fun prev =>
              {| agentState := agentState prev;
                 conversationId := Some newConversationId;
                 leadId := Some newLeadId;
                 transcriptions := transcriptions prev ++ [entry];
                 active_functionalities :=
                   default (active_functionalities prev) (functionalities message);
                 isActive := isActive prev; isConnected := isConnected prev;
                 error := error prev |}) p in
          let p2 := emit (SaveSession newConversationId newLeadId) p1 in
          let p3 := emit (ResponseReceived newConversationId) p2 in
          let p4 := match truthy (audio_base64 message) with
                    | Some audio => emit (PlayAudio audio) p3
                    | None => p3
                    end in
          Done (set_currentTranscription "" p4)
      end
  end.

Definition on_error_message (message : VoiceMessage) (p : Page) : Page :=
  let description := default "Ocorreu um erro" (truthy (msg_error message)) in
  let p1 := emit (Toast description) p in
  let p2 := setInteractionState (fun prev =>
      {| agentState := agentState prev; conversationId := conversationId prev;
         leadId := leadId prev; transcriptions := transcriptions prev;
         active_functionalities := active_functionalities prev;
         isActive := isActive prev; isConnected := isConnected prev;
         error := truthy (msg_error message) |}) p1 in
  emit (TrackError (default "Unknown error" (truthy (msg_error message)))) p2.

(** The onMessage option handed to useVoiceWebSocket: three ifs in a row. *)
Definition onMessage (now : Z) (message : VoiceMessage) (p : Page) : Outcome :=
  let after_response :=
    match type message, truthy (text message) with
    | response, Some t => on_response now message t p
    | _, _ => Done p
    end in
  match after_response with
  | ReferenceError n => ReferenceError n
  | Done p1 =>
      let p2 := match type message, truthy (text message) with
                | transcription, Some t => set_currentTranscription t p1
                | _, _ => p1
                end in
      Done (match type message with
            | Voice.error => on_error_message message p2
            | _ => p2
            end)
  end.

(** The onStateChange option. *)
Definition onStateChange (s : AgentState) (p : Page) : Page :=
  setInteractionState (fun prev =>
    {| agentState := s; conversationId := conversationId prev;
       leadId := leadId prev; transcriptions := transcriptions prev;
       active_functionalities := active_functionalities prev;
       isActive := isActive prev; isConnected := isConnected prev;
       error := error prev |}) p.

(** ws.onmessage of the transport, seen from the page: the state callback
    for state messages, then onMessage, all inside a try whose catch block
    logs the exception and goes on. *)
Definition deliver (now : Z) (message : VoiceMessage) (p : Page) : Page :=
  let p1 := match type message, msg_state message with
            | state, Some s => onStateChange s p
            | _, _ => p
            end in
  match onMessage now message p1 with
  | Done p2 => p2
  | ReferenceError _ => p1
  end.


(** The onRecordingComplete option handed to useAudioManager.
    [currentTranscription_seen] is the currentTranscription of the render
    whose closure the recorder's onstop handler holds. *)
Definition onRecordingComplete (now : Z) (currentTranscription_seen : string)
    (p : Page) : Page :=
  let entry := {| id := (now, user); timestamp := now; speaker := user;
                  entry_text := if decide (currentTranscription_seen = "")
                                then "Processando..."
                                else currentTranscription_seen;
                  entry_state := listening |} in
  setInteractionState (fun prev =>
    {| agentState := agentState prev; conversationId := conversationId prev;
       leadId := leadId prev; transcriptions := transcriptions prev ++ [entry];
       active_functionalities := active_functionalities prev;
       isActive := isActive prev; isConnected := isConnected prev;
       error := error prev |}) p.

(** The calls of playAudio among the effects. *)
Definition playAudio_calls (p : Page) : list string :=
  omap (fun e => match e with PlayAudio a => Some a | _ => None end) (effects p).


Definition response_message (t : string) (audio conversation lead : option string) :
    VoiceMessage :=
  {| type := response; msg_state := None; text := Some t; audio_base64 := audio;
     conversation_id := conversation; functionalities := None; lead_id := lead;
     msg_error := None |}.

End Controller.

(** * Properties *)

(** ** SessionTransport *)

Section TransportFacts.
Import Transport.

Lemma attempts_from_app k l1 l2 :
  attempts_from k (l1 ++ l2) =
  attempts_from k l1 ++ attempts_from (counter_after k l1) l2.
Proof.
  revert k. induction l1 as [|e l1 IH]; intros k; [done|].
  destruct e; simpl; rewrite ?IH; done.
Qed.

Lemma counter_after_app k l1 l2 :
  counter_after k (l1 ++ l2) = counter_after (counter_after k l1) l2.
Proof.
  revert k. induction l1 as [|e l1 IH]; intros k; [done|].
  destruct e; simpl; rewrite ?IH; done.
Qed.

(** The flush loop touches only the queue and the wire. *)
Lemma drain_frame fuel s h :
  sockets (drain fuel s h) = sockets h
  /\ wsRef (drain fuel s h) = wsRef h
  /\ reconnectCountRef (drain fuel s h) = reconnectCountRef h
  /\ timers (drain fuel s h) = timers h
  /\ log (drain fuel s h) = log h.
Proof.
  revert h. induction fuel as [|fuel IH]; intros h; simpl; [done|].
  destruct (messageQueueRef h) as [|m q]; [done|].
  case_bool_decide; match goal with |- context [drain fuel s ?x] =>
    destruct (IH x) as (-> & -> & -> & -> & ->) end; done.
Qed.

(** On an open socket the loop sends the whole queue, oldest first, and
    leaves it empty. *)
Lemma drain_flushes fuel s h :
  sockets h !! s = Some OPEN ->
  (length (messageQueueRef h) <= fuel)%nat ->
  wire (drain fuel s h) = wire h ++ ((fun m => (s, m)) <$> messageQueueRef h)
  /\ messageQueueRef (drain fuel s h) = [].
Proof.
  revert h. induction fuel as [|fuel IH]; intros h Hs Hlen; simpl.
  - destruct (messageQueueRef h); simpl in *; [by rewrite app_nil_r | lia].
  - destruct (messageQueueRef h) as [|m q] eqn:Hq; [by rewrite app_nil_r|].
    simpl in *. rewrite bool_decide_eq_true_2 by done.
    match goal with |- context [drain fuel s ?x] =>
      destruct (IH x) as [-> ->]; simpl; [done | lia |] end.
    by rewrite <- app_assoc.
Qed.

Lemma auto_inv_mounted : auto_inv mounted.
Proof.
  repeat split; simpl; try lia; [|by left|constructor].
  intros [|i] st; simpl; [done|]. by destruct i.
Qed.

Lemma auto_inv_open s h :
  sockets h !! s = Some CONNECTING ->
  auto_inv h ->
  auto_inv (onopen s (set_sockets (<[s := OPEN]> (sockets h)) h)).
Proof.
  intros Hs (Hc & Hlive & Htm & Hk & Hok). unfold onopen, auto_inv.
  destruct (drain_frame
    (length (messageQueueRef (console LConnected (set_reconnectCountRef 0
      (set_connectionState connected (set_sockets (<[s:=OPEN]> (sockets h)) h))))))
    s (console LConnected (set_reconnectCountRef 0
      (set_connectionState connected (set_sockets (<[s:=OPEN]> (sockets h)) h)))))
    as (-> & -> & -> & -> & ->).
  simpl. assert (Href : wsRef h = Some s) by (by apply (Hlive s CONNECTING)).
  repeat split; try lia.
  - intros i st Hi Hne. destruct (decide (i = s)) as [->|Hn]; [done|].
    rewrite list_lookup_insert_ne in Hi by done. eauto.
  - left. destruct Htm as [?|(Hnone & _)]; [done|congruence].
  - by rewrite counter_after_app.
  - rewrite attempts_from_app. simpl. by rewrite app_nil_r.
Qed.

Lemma auto_inv_close s st h :
  sockets h !! s = Some st -> st <> CLOSED ->
  auto_inv h ->
  auto_inv (onclose default_options (set_sockets (<[s := CLOSED]> (sockets h)) h)).
Proof.
  intros Hs Hst (Hc & Hlive & Htm & Hk & Hok).
  assert (Href : wsRef h = Some s) by eauto.
  assert (Hnil : timers h = []) by (destruct Htm as [?|(? & _)]; [done|congruence]).
  assert (Hclosed : forall i st', <[s:=CLOSED]> (sockets h) !! i = Some st' ->
                                  st' <> CLOSED -> False).
  { intros i st' Hi Hne. destruct (decide (i = s)) as [->|Hn].
    - rewrite list_lookup_insert_eq in Hi by (by eapply lookup_lt_Some).
      congruence.
    - rewrite list_lookup_insert_ne in Hi by done.
      specialize (Hlive _ _ Hi Hne). congruence. }
  unfold onclose, auto_inv. simpl.
  destruct (Z.ltb_spec (reconnectCountRef h) 3) as [Hlt|Hge]; simpl.
  - rewrite Hnil. simpl. repeat split; try lia.
    + intros i st' Hi Hne. by destruct (Hclosed i st').
    + right. repeat split; [lia|]. by eexists.
    + rewrite counter_after_app. simpl. done.
    + rewrite attempts_from_app. simpl. by rewrite app_nil_r.
  - repeat split; try lia.
    + intros i st' Hi Hne. by destruct (Hclosed i st').
    + by left.
    + rewrite counter_after_app. simpl. done.
    + rewrite attempts_from_app. simpl. by rewrite app_nil_r.
Qed.

Lemma auto_inv_timer t tm h :
  lookup_timer t h = Some tm ->
  auto_inv h ->
  auto_inv (run_timer tm (clearTimeout t h)).
Proof.
  intros Ht (Hc & Hlive & Htm & Hk & Hok).
  destruct Htm as [Hnil|(Hnone & Hlt & t' & Hts)].
  { unfold lookup_timer in Ht. by rewrite Hnil in Ht. }
  unfold lookup_timer in Ht. rewrite Hts in Ht. simpl in Ht.
  destruct (Nat.eqb_spec t' t) as [Heq|Hne]; [|done]. simpl in Ht.
  injection Ht as <-. subst t'.
  unfold run_timer, clearTimeout, connect, ref_is_open, auto_inv. simpl.
  rewrite Hnone, Hts. simpl.
  rewrite filter_cons_False, filter_nil by (simpl; intros H; by apply H).
  repeat split; try lia.
  - intros i st Hi Hne.
    destruct (lookup_app_Some (sockets h) [CONNECTING] i st) as [[Hl|[Hge Hr]] _];
      [done| |].
    + specialize (Hlive _ _ Hl Hne). congruence.
    + destruct (i - length (sockets h))%nat eqn:Hd; [|by destruct n].
      f_equal. lia.
  - by left.
  - rewrite counter_after_app. simpl. lia.
  - rewrite attempts_from_app. simpl. apply Forall_app. split; [done|].
    constructor; [|constructor]. split; simpl; [lia|].
    replace (Z.of_nat (S (counter_after 0 (log h))) - 1) with (reconnectCountRef h) by lia.
    done.
Qed.

Lemma auto_inv_send m h : auto_inv h -> auto_inv (sendMessage m h).
Proof.
  unfold sendMessage, auto_inv.
  destruct (wsRef h) eqn:Href; [case_bool_decide|]; simpl; rewrite ?Href; done.
Qed.

Lemma auto_inv_step e h :
  automatic e = true -> auto_inv h -> auto_inv (step default_options e h).
Proof.
  intros Ha Hinv. destruct e as [s|s|s|s data|t|m| | |s]; simpl in *; try done.
  - case_bool_decide; [by apply auto_inv_open | done].
  - destruct (sockets h !! s) as [st|] eqn:Hs; [|done].
    destruct st; try done; by eapply auto_inv_close.
  - destruct (sockets h !! s) as [st|] eqn:Hs; [|done].
    destruct st; done.
  - case_bool_decide; [|done]. by destruct data.
  - destruct (lookup_timer t h) as [tm|] eqn:Ht; [|done].
    by apply auto_inv_timer.
  - by apply auto_inv_send.
  - case_bool_decide as Hs; [|done].
    destruct Hinv as (Hc & Hlive & Htm & Hk & Hok).
    repeat split; simpl; try done; try lia.
    intros i st Hi Hne. destruct (decide (i = s)) as [->|Hn];
      [by apply (Hlive s OPEN)|].
    rewrite list_lookup_insert_ne in Hi by done. eauto.
Qed.

Lemma auto_inv_run evs h :
  forallb automatic evs = true -> auto_inv h ->
  auto_inv (run default_options evs h).
Proof.
  revert h. induction evs as [|e evs IH]; intros h Hall Hinv; [done|].
  simpl in Hall. apply andb_prop in Hall as [He Hevs].
  simpl. apply IH; [done|]. by apply auto_inv_step.
Qed.

Lemma connect_keeps_counter h :
  reconnectCountRef (connect h) = reconnectCountRef h.
Proof. unfold connect. by destruct (ref_is_open h). Qed.

Lemma onopen_resets_counter s h : reconnectCountRef (onopen s h) = 0.
Proof.
  unfold onopen.
  match goal with |- context [drain ?f s ?x] =>
    destruct (drain_frame f s x) as (_ & _ & -> & _) end.
  done.
Qed.

(** C1 (evaluation at the failing run, default options).  The first
    socket is still connecting when reconnect() is called.  The socket that
    reconnect() closed keeps its onclose handler: its close event arms an
    automatic attempt (timer 2, 1000 ms) next to the manual connect (timer
    1, 100 ms), and from there two sockets at a time close and retry on the
    one counter.  After the one manual reconnect() and without any open,
    four automatic attempts are made, with delays 1000, 2000, 4000 and 4000
    ms: the fourth is one too many and its delay is not 1000 * 2^3; two
    automatic timers are pending at once on the way, and the counter ends at
    4, above the maximum. *)
Theorem transport_backoff_broken_after_reconnect :
  let evs := [Reconnect; EvClose 0%nat; EvTimer 1%nat; EvTimer 2%nat;
              EvClose 1%nat; EvTimer 3%nat; EvClose 2%nat; EvClose 3%nat;
              EvTimer 4%nat; EvTimer 5%nat] in
  let h := run default_options evs mounted in
  log h = [LManual; LReconnecting 1000 1; LAttempt 1000; LReconnecting 2000 2;
           LAttempt 2000; LReconnecting 4000 3; LReconnecting 4000 3;
           LAttempt 4000; LAttempt 4000]
  /\ attempts_from 0 (log h) =
       [(1%nat, 1000); (2%nat, 2000); (3%nat, 4000); (4%nat, 4000)]
  /\ timers (run default_options (take 8 evs) mounted) =
       [(4%nat, {| task := AutoReconnect; delay := 4000 |});
        (5%nat, {| task := AutoReconnect; delay := 4000 |})]
  /\ reconnectCountRef h = 4
  /\ ~ Forall backoff_ok (attempts_from 0 (log h)).
Proof.
  intros evs h.
  assert (Ha : attempts_from 0 (log h) =
               [(1%nat, 1000); (2%nat, 2000); (3%nat, 4000); (4%nat, 4000)])
    by (vm_compute; reflexivity).
  split; [vm_compute; reflexivity|]. split; [exact Ha|].
  split; [vm_compute; reflexivity|]. split; [vm_compute; reflexivity|].
  rewrite Ha. intros Hall.
  apply (Forall_lookup_1 _ _ 3%nat (4%nat, 4000)) in Hall as [Hle _]; [|done].
  simpl in Hle. lia.
Qed.

Lemma onclose_frame o h :
  wire (onclose o h) = wire h
  /\ messageQueueRef (onclose o h) = messageQueueRef h
  /\ wsRef (onclose o h) = None.
Proof.
  unfold onclose. simpl. by destruct (reconnectCountRef h <? reconnectAttempts o).
Qed.

Lemma connect_frame h :
  wire (connect h) = wire h
  /\ messageQueueRef (connect h) = messageQueueRef h
  /\ (ref_is_open (connect h) = true -> ref_is_open h = true).
Proof.
  unfold connect. destruct (ref_is_open h) eqn:Hopen; [done|].
  split; [done|]. split; [done|].
  unfold ref_is_open. simpl.
  rewrite lookup_app_r, Nat.sub_diag by lia. done.
Qed.

Lemma disconnect_frame h :
  wire (disconnect h) = wire h
  /\ messageQueueRef (disconnect h) = messageQueueRef h
  /\ wsRef (disconnect h) = None.
Proof.
  destruct h as [cs lm es sk wr [s|] cnt [t|] q tms nt lg];
    unfold disconnect, ws_close; simpl; try done;
    destruct (sk !! s) as [[]|]; done.
Qed.

Lemma reconnect_frame h :
  wire (reconnect h) = wire h
  /\ messageQueueRef (reconnect h) = messageQueueRef h
  /\ wsRef (reconnect h) = None.
Proof.
  destruct h as [cs lm es sk wr [s|] cnt [t|] q tms nt lg];
    unfold reconnect, disconnect, ws_close; simpl; try done;
    destruct (sk !! s) as [[]|]; done.
Qed.

Lemma send_when_closed m h :
  ref_is_open h = false ->
  messageQueueRef (sendMessage m h) = messageQueueRef h ++ [m]
  /\ wire (sendMessage m h) = wire h.
Proof.
  intros Hclosed. unfold sendMessage, ref_is_open in *.
  destruct (wsRef h); [|done]. by rewrite Hclosed.
Qed.

Lemma send_when_open m h :
  ref_is_open h = true ->
  exists s, wsRef h = Some s
    /\ wire (sendMessage m h) = wire h ++ [(s, m)]
    /\ messageQueueRef (sendMessage m h) = messageQueueRef h.
Proof.
  intros Hopen. unfold sendMessage, ref_is_open in *.
  destruct (wsRef h) as [s|]; [|done]. rewrite Hopen. by exists s.
Qed.

Lemma send_keeps_connection m h :
  ref_is_open (sendMessage m h) = ref_is_open h.
Proof.
  unfold sendMessage, ref_is_open.
  destruct (wsRef h) as [s|] eqn:Href; [case_bool_decide|];
    simpl; rewrite ?Href; [by apply bool_decide_eq_true_2
                          | by apply bool_decide_eq_false_2 | done].
Qed.

Lemma queue_inv_step o e h frames :
  queue_inv frames h -> queue_inv (frames ++ sent [e]) (step o e h).
Proof.
  intros [Hempty Hall]. unfold queue_inv.
  destruct e as [s|s|s|s data|t|m| | |s]; simpl (sent _); cbn [step];
    rewrite ?app_nil_r.
  - case_bool_decide as Hs; [|done]. unfold onopen.
    match goal with |- context [drain ?f s ?x] =>
      pose proof (drain_flushes f s x) as Hfl;
      remember (drain f s x) as h' eqn:Hh' end.
    destruct Hfl as [Hw Hq]; [|simpl; lia|].
    { apply list_lookup_insert_eq. by eapply lookup_lt_Some. }
    simpl in Hw. rewrite Hw, Hq, fmap_app, <- list_fmap_compose, app_nil_r.
    split; [done|]. rewrite <- Hall. f_equal. by rewrite list_fmap_id.
  - destruct (sockets h !! s) as [[]|]; try done;
      match goal with |- context [onclose o ?x] =>
        destruct (onclose_frame o x) as (-> & -> & Href) end;
      (split; [unfold ref_is_open; by rewrite Href | done]).
  - destruct (sockets h !! s) as [[]|]; done.
  - case_bool_decide; [|done]. by destruct data.
  - destruct (lookup_timer t h) as [[[] d]|]; [| |done]; unfold run_timer; simpl.
    + match goal with |- context [connect ?x] =>
        destruct (connect_frame x) as (-> & -> & Href) end.
      split; [|done]. intros Hopen. by apply Hempty, Href.
    + match goal with |- context [connect ?x] =>
        destruct (connect_frame x) as (-> & -> & Href) end.
      split; [|done]. intros Hopen. by apply Hempty, Href.
  - rewrite send_keeps_connection. destruct (ref_is_open h) eqn:Hopen.
    + destruct (send_when_open m h Hopen) as (s & _ & -> & ->).
      rewrite Hempty in * by done. rewrite fmap_app, !app_nil_r in *. simpl.
      split; [done|]. by rewrite Hall.
    + destruct (send_when_closed m h Hopen) as [-> ->].
      split; [done|]. by rewrite app_assoc, Hall.
  - destruct (reconnect_frame h) as (Hw & Hq & Href).
    unfold ref_is_open. by rewrite Hw, Hq, Href.
  - destruct (disconnect_frame h) as (Hw & Hq & Href).
    unfold ref_is_open. by rewrite Hw, Hq, Href.
  - case_bool_decide as Hs; [|done]. split; [|done].
    intros Hopen. apply Hempty. unfold ref_is_open in *. simpl in Hopen.
    destruct (wsRef h) as [r|]; [|done].
    apply bool_decide_eq_true in Hopen. apply bool_decide_eq_true_2.
    destruct (decide (r = s)) as [->|Hn]; [done|].
    by rewrite list_lookup_insert_ne in Hopen.
Qed.

Lemma queue_inv_run o evs h frames :
  queue_inv frames h -> queue_inv (frames ++ sent evs) (run o evs h).
Proof.
  revert h frames. induction evs as [|e evs IH]; intros h frames Hinv.
  - by rewrite app_nil_r.
  - change (run o (e :: evs) h) with (run o evs (step o e h)).
    replace (frames ++ sent (e :: evs)) with ((frames ++ sent [e]) ++ sent evs).
    + by apply IH, queue_inv_step.
    + rewrite <- app_assoc. f_equal. unfold sent. simpl. by destruct e.
Qed.

(** C7. While wsRef holds no open socket, send appends the message to the
    queue and transmits nothing; the open event of a socket transmits the
    whole queue on it, oldest first, and empties it; while wsRef holds an
    open socket, send transmits on it and leaves the queue alone; and in
    every run from the mount, whatever the events, the frames transmitted
    followed by the frames still queued are the frames passed to send, in
    the order of the calls. *)
Theorem transport_send_defers_then_flushes :
  (forall o evs,
     (snd <$> wire (run o evs mounted)) ++ messageQueueRef (run o evs mounted) =
     sent evs)
  /\ (forall h m, ref_is_open h = false ->
     messageQueueRef (sendMessage m h) = messageQueueRef h ++ [m]
     /\ wire (sendMessage m h) = wire h)
  /\ (forall o h s, sockets h !! s = Some CONNECTING ->
        wire (step o (EvOpen s) h) =
          wire h ++ ((fun m => (s, m)) <$> messageQueueRef h)
        /\ messageQueueRef (step o (EvOpen s) h) = [])
  /\ (forall h m, ref_is_open h = true ->
        exists s, wsRef h = Some s
          /\ wire (sendMessage m h) = wire h ++ [(s, m)]
          /\ messageQueueRef (sendMessage m h) = messageQueueRef h).
Proof.
  split; [|split; [|split]].
  - intros o evs.
    assert (Hinit : queue_inv [] mounted) by done.
    by destruct (queue_inv_run o evs mounted [] Hinit) as [_ ?].
  - intros h m. apply send_when_closed.
  - intros o h s Hs. simpl. rewrite bool_decide_eq_true_2 by done.
    unfold onopen.
    match goal with |- context [drain ?f s ?x] =>
      destruct (drain_flushes f s x) as [Hw Hq] end; simpl; [|lia|by split].
    apply list_lookup_insert_eq. by eapply lookup_lt_Some.
  - intros h m. apply send_when_open.
Qed.

Lemma transport_send_defers_then_flushes_witness :
  wire (step default_options (EvOpen 0%nat)
          (sendMessage (TextMsg "b") (sendMessage (TextMsg "a") mounted)))
  = [(0%nat, TextMsg "a"); (0%nat, TextMsg "b")]
  /\ messageQueueRef (sendMessage (TextMsg "a") mounted) = [TextMsg "a"]
  /\ (exists s, wsRef (step default_options (EvOpen 0%nat) mounted) = Some s
        /\ wire (sendMessage (TextMsg "c")
                   (step default_options (EvOpen 0%nat) mounted)) =
            [(s, TextMsg "c")]
        /\ messageQueueRef (sendMessage (TextMsg "c")
                   (step default_options (EvOpen 0%nat) mounted)) = []).
Proof.
  destruct transport_send_defers_then_flushes as (_ & Hq & Hflush & Hsend).
  split; [|split].
  - destruct (Hflush default_options
                (sendMessage (TextMsg "b") (sendMessage (TextMsg "a") mounted))
                0%nat) as [-> _]; reflexivity.
  - destruct (Hq mounted (TextMsg "a")) as [-> _]; reflexivity.
  - destruct (Hsend (step default_options (EvOpen 0%nat) mounted) (TextMsg "c"))
      as (s & Hs & Hw & Hm); [reflexivity|].
    exists s. rewrite Hw, Hm. done.
Defined.

(** What disconnect does achieve: the timer whose id is in
    reconnectTimeoutRef is no longer pending, the counter is zero and the
    queue is as it was. *)
Lemma disconnect_effect h :
  reconnectCountRef (disconnect h) = 0
  /\ messageQueueRef (disconnect h) = messageQueueRef h
  /\ (forall t, reconnectTimeoutRef h = Some t ->
        lookup_timer t (disconnect h) = None).
Proof.
  assert (Hclose : forall s x, timers (ws_close s x) = timers x
                    /\ messageQueueRef (ws_close s x) = messageQueueRef x).
  { intros s x. unfold ws_close. by destruct (sockets x !! s) as [[]|]. }
  unfold disconnect. simpl. split; [done|]. split.
  - destruct (reconnectTimeoutRef h); simpl;
      match goal with |- context [wsRef ?x] => destruct (wsRef x) end; simpl;
      rewrite ?(proj2 (Hclose _ _)); done.
  - intros t ->. unfold lookup_timer. simpl.
    assert (Hfind : find (fun p : nat * Timer => (p.1 =? t)%nat)
                      (filter (fun p : nat * Timer => p.1 ≠ t) (timers h)) = None).
    { induction (timers h) as [|p l IH]; [done|].
      rewrite filter_cons. case_decide as Hp; [|done].
      simpl. destruct (Nat.eqb_spec p.1 t); done. }
    destruct (wsRef h); simpl; rewrite ?(proj1 (Hclose _ _)); simpl;
      by rewrite Hfind.
Qed.

(** C10 (evaluation at the failing run).  While the first socket is still
    connecting, reconnect() is called; the close event of that socket arms
    timer 2; the manual timer creates socket 1; socket 1 closes and arms
    timer 3.  disconnect() then cancels timer 3 only: timer 2, armed before
    the call, is still pending, and its callback increments the counter and
    opens socket 2. *)
Theorem transport_disconnect_misses_older_timer :
  let h := run default_options
             [Reconnect; EvClose 0%nat; EvTimer 1%nat; EvClose 1%nat]
             mounted in
  timers h = [(2%nat, {| task := AutoReconnect; delay := 1000 |});
              (3%nat, {| task := AutoReconnect; delay := 1000 |})]
  /\ reconnectTimeoutRef h = Some 3%nat
  /\ timers (disconnect h) = [(2%nat, {| task := AutoReconnect; delay := 1000 |})]
  /\ reconnectCountRef (disconnect h) = 0
  /\ sockets (disconnect h) = [CLOSED; CLOSED]
  /\ reconnectCountRef (step default_options (EvTimer 2%nat) (disconnect h)) = 1
  /\ sockets (step default_options (EvTimer 2%nat) (disconnect h)) =
       [CLOSED; CLOSED; CONNECTING]
  /\ log (step default_options (EvTimer 2%nat) (disconnect h)) =
       log h ++ [LAttempt 1000].
Proof. vm_compute. repeat split. Qed.

End TransportFacts.

(** ** SessionPersistence *)

Section SessionFacts.
Import Session.

(** C8. A record saved with timeout T when the clock read t0 is reported
    valid at every probe in [t0, t0+T) and not valid at every probe from
    t0+T on; with no record loaded the check reports not valid. *)
Theorem session_valid_exactly_until_expiry :
  (forall o c l t t0 h probe,
     t0 <= probe < t0 + sessionTimeout o ->
     isSessionValid probe (saveSession o c l t t0 true h) = true)
  /\ (forall o c l t t0 h probe,
        t0 + sessionTimeout o <= probe ->
        isSessionValid probe (saveSession o c l t t0 true h) = false)
  /\ (forall probe h, sessionData h = None -> isSessionValid probe h = false).
Proof.
  split; [|split].
  - intros o c l t t0 h probe Hin. unfold isSessionValid, saveSession. simpl.
    apply Z.ltb_lt. lia.
  - intros o c l t t0 h probe Hout. unfold isSessionValid, saveSession. simpl.
    apply Z.ltb_ge. lia.
  - intros probe h Hnone. unfold isSessionValid. by rewrite Hnone.
Qed.

Lemma session_valid_exactly_until_expiry_witness :
  isSessionValid 1000 (saveSession default_options "c1" None 1000 1000 true (init ∅)) = true
  /\ isSessionValid 1800999
       (saveSession default_options "c1" None 1000 1000 true (init ∅)) = true
  /\ isSessionValid 1801000
       (saveSession default_options "c1" None 1000 1000 true (init ∅)) = false
  /\ isSessionValid 1000 (init ∅) = false.
Proof.
  destruct session_valid_exactly_until_expiry as (Hin & Hout & Hnone).
  split; [|split; [|split]].
  - apply Hin. unfold default_options, DEFAULT_SESSION_TIMEOUT. simpl. lia.
  - apply Hin. unfold default_options, DEFAULT_SESSION_TIMEOUT. simpl. lia.
  - apply Hout. unfold default_options, DEFAULT_SESSION_TIMEOUT. simpl. lia.
  - apply Hnone. reflexivity.
Defined.

End SessionFacts.

(** ** AudioCaptureEngine *)

Section CaptureFacts.
Import Capture.

Lemma stopRecording_released h : released (stopRecording h).
Proof.
  destruct h as [rec lvl err rs ss cs mr ac an sr ch st ci tm nt fr cp].
  unfold stopRecording, released; simpl.
  destruct ci as [ci|], st as [st|]; simpl;
    (destruct mr as [r|]; simpl;
     [destruct (rs !! r) as [[state q]|] eqn:Hr; simpl;
      [destruct (decide (state = inactive)) as [->|Hact]; simpl|]|]);
    destruct sr as [s|], ac as [a|]; simpl;
    repeat split; try done;
    intros r' rec' [= <-]; rewrite ?Hr;
    rewrite ?list_lookup_insert_eq by (by eapply lookup_lt_Some);
    by intros [= <-].
Qed.



(** stopRecording leaves the chunks and the delivered blobs alone, and of
    the recorders it touches only the one in mediaRecorderRef. *)
Lemma stopRecording_keeps h :
  chunksRef (stopRecording h) = chunksRef h
  /\ completed (stopRecording h) = completed h
  /\ recorders (stopRecording h) =
       match mediaRecorderRef h with
       | Some r =>
           match recorders h !! r with
           | Some rec =>
               if decide (rstate rec = inactive) then recorders h
               else <[r := {| rstate := inactive; stop_queued := true |}]> (recorders h)
           | None => recorders h
           end
       | None => recorders h
       end.
Proof.
  destruct h as [rec lvl err rs ss cs mr ac an sr ch st ci tm nt fr cp].
  unfold stopRecording; simpl.
  destruct ci as [ci|], st as [st|]; simpl;
    (destruct mr as [r|]; simpl;
     [destruct (rs !! r) as [[state q]|] eqn:Hr; simpl;
      [destruct (decide (state = inactive)) as [->|Hact]; simpl|]|]);
    destruct sr as [s|], ac as [a|]; simpl; done.
Qed.

(** The stop event of a recorder whose stop is queued hands one blob over:
    the chunks collected so far and the last data, if it is not empty. *)
Lemma stopped_delivers o r d st h :
  onRecordingComplete o = true ->
  recorders h !! r = Some {| rstate := st; stop_queued := true |} ->
  completed (step o (EvStopped r d) h) =
    completed h ++ [String.concat "" (chunksRef (ondataavailable d h))]
  /\ recorders (step o (EvStopped r d) h) !! r =
       Some {| rstate := st; stop_queued := false |}.
Proof.
  intros Hcb Hr. cbn [step]. rewrite Hr. unfold onstop, ondataavailable.
  rewrite Hcb.
  destruct h as [rec lvl err rs ss cs mr ac an sr ch sl ci tm nt fr cp].
  simpl in *.
  destruct (0 <? String.length d)%nat; simpl;
    (split; [done|]); apply list_lookup_insert_eq; by eapply lookup_lt_Some.
Qed.





(** The root of the silence detector's behaviour: a startRecording that is
    called while the hook is not recording runs monitorAudioLevel once, with
    a closure that saw isRecording = false, so no animation frame is ever
    requested. *)
Lemma start_requests_no_frame o outcome level h :
  isRecording h = false ->
  frames (startRecording o outcome level h) = frames h.
Proof.
  intros Hrec. unfold startRecording, startRecording_in_render. rewrite Hrec.
  destruct outcome; simpl; try done.
  unfold monitorAudioLevel; simpl.
  destruct (Qlt_bool level (silenceThreshold (config o) * 100));
    destruct (silenceTimeoutRef h); destruct (onAudioChunk o); done.
Qed.

Lemma no_frame_no_sample o levels h :
  frames h = [] -> run o (EvFrame <$> levels) h = h.
Proof.
  intros Hfr. induction levels as [|l levels IH]; [done|].
  simpl. by rewrite Hfr.
Qed.

Lemma find_cleared (t : nat) (l : list (nat * Timer)) :
  find (fun p : nat * Timer => (p.1 =? t)%nat) (filter (fun p => p.1 ≠ t) l) = None.
Proof.
  induction l as [|p l IH]; [done|].
  rewrite filter_cons. case_decide as Hp; [|done]. simpl.
  by destruct (Nat.eqb_spec p.1 t).
Qed.

(** X18. One run of monitorAudioLevel is as the silence detector needs it.
    A reading below the threshold arms a timer only when none is armed:
    with one armed, the pending timers and the ref stay as they are; with
    none, one timer of silenceDuration is added and the ref holds its id.
    A reading at or above the threshold leaves none armed: the ref is
    cleared and the timer it held is cancelled, all other timers staying as
    they are. *)
Lemma monitor_one_timer c seen level h a :
  analyserRef h = Some a ->
  let h' := monitorAudioLevel c seen level h in
  (Qlt_bool level (silenceThreshold c * 100) = true ->
   (forall t, silenceTimeoutRef h = Some t ->
      timers h' = timers h /\ silenceTimeoutRef h' = Some t)
   /\ (silenceTimeoutRef h = None ->
       timers h' = timers h ++ [(nextTimer h, {| task := SilenceStop;
                                                 delay := silenceDuration c |})]
       /\ silenceTimeoutRef h' = Some (nextTimer h)))
  /\ (Qlt_bool level (silenceThreshold c * 100) = false ->
      silenceTimeoutRef h' = None
      /\ timers h' = match silenceTimeoutRef h with
                     | Some t => filter (fun p => p.1 ≠ t) (timers h)
                     | None => timers h
                     end
      /\ forall t, silenceTimeoutRef h = Some t -> lookup_timer t h' = None).
Proof.
  intros Ha h'. subst h'. unfold monitorAudioLevel. rewrite Ha. split.
  - intros ->. split.
    + intros t Ht. simpl. rewrite Ht. by destruct seen.
    + intros Ht. simpl. rewrite Ht. by destruct seen.
  - intros ->. simpl. destruct (silenceTimeoutRef h) as [t|] eqn:Ht.
    + assert (Hoff : forall b : bool,
        lookup_timer t
          (if b
           then set_frames
                  (frames (set_silenceTimeoutRef None
                             (clearTimer t (set_audioLevel level h))) ++ [b])
                  (set_silenceTimeoutRef None
                     (clearTimer t (set_audioLevel level h)))
           else set_silenceTimeoutRef None
                  (clearTimer t (set_audioLevel level h))) = None).
      { intros b. unfold lookup_timer.
        destruct b; simpl; by rewrite find_cleared. }
      destruct seen; simpl; (split; [done|]); (split; [done|]);
        intros t' [= <-]; [exact (Hoff true) | exact (Hoff false)].
    + destruct seen; simpl; by repeat split.
Qed.

(** C2 (evaluation at the failing runs, default configuration).  Recording
    starts with a first reading of 0: the silence timer is armed for 1500 ms
    and no frame callback is pending, so whatever levels follow, none is
    sampled, the timer stays armed, and when it fires the recording stops.
    Recording starts with a first reading of 50: no timer is armed, and
    whatever levels follow, none is ever armed. *)
Theorem capture_silence_monitor_samples_once :
  let quiet := startRecording default_options Granted 0%Q init in
  let loud := startRecording default_options Granted 50%Q init in
  frames quiet = []
  /\ silenceTimeoutRef quiet = Some 1%nat
  /\ lookup_timer 1 quiet = Some {| task := SilenceStop; delay := 1500 |}
  /\ (forall levels, run default_options (EvFrame <$> levels) quiet = quiet)
  /\ isRecording (step default_options (EvTimer 1%nat) quiet) = false
  /\ recorders (step default_options (EvTimer 1%nat) quiet) =
       [{| rstate := inactive; stop_queued := true |}]
  /\ frames loud = []
  /\ silenceTimeoutRef loud = None
  /\ isRecording loud = true
  /\ (forall levels, run default_options (EvFrame <$> levels) loud = loud).
Proof.
  intros quiet loud.
  assert (Hquiet : frames quiet = []) by (vm_compute; reflexivity).
  assert (Hloud : frames loud = []) by (vm_compute; reflexivity).
  split; [done|]. split; [vm_compute; reflexivity|].
  split; [vm_compute; reflexivity|].
  split; [intros levels; by apply no_frame_no_sample|].
  split; [vm_compute; reflexivity|]. split; [vm_compute; reflexivity|].
  split; [done|]. split; [vm_compute; reflexivity|].
  split; [vm_compute; reflexivity|].
  intros levels; by apply no_frame_no_sample.
Qed.

End CaptureFacts.

(** ** AudioPlaybackQueue *)

Section PlaybackFacts.
Import Playback.

(** audio.onerror never looks at the queue: whatever waits there keeps
    waiting, and nothing starts. *)
Lemma onerror_strands_queue a payload h :
  audios h !! a = Some (payload, Playing) ->
  audioQueueRef (step (EvError a) h) = audioQueueRef h
  /\ play_order (step (EvError a) h) = play_order h
  /\ isPlaying (step (EvError a) h) = false.
Proof.
  intros Ha. cbn [step]. rewrite Ha. unfold onerror, set_status, play_order.
  rewrite Ha. simpl. repeat split.
  rewrite list_fmap_insert. simpl. apply list_insert_id.
  by rewrite list_lookup_fmap, Ha.
Qed.

(** C4 (evaluation at the failing run).  A plays and B waits in the queue.
    The error event of A sets the error and clears isPlaying, and B is still
    in the queue with nothing playing; the ended event of A in the same
    state starts B. *)
Theorem playback_error_strands_next_segment :
  let h := run [Enqueue "QQ=="; Enqueue "Qg=="] init in
  now_playing h = ["QQ=="%string]
  /\ audioQueueRef h = ["Qg=="%string]
  /\ errorState (step (EvError 0%nat) h) = Some "Audio playback failed"%string
  /\ isPlaying (step (EvError 0%nat) h) = false
  /\ audioQueueRef (step (EvError 0%nat) h) = ["Qg=="%string]
  /\ now_playing (step (EvError 0%nat) h) = []
  /\ play_order (step (EvError 0%nat) h) = ["QQ=="%string]
  /\ now_playing (step (EvEnded 0%nat) h) = ["Qg=="%string]
  /\ audioQueueRef (step (EvEnded 0%nat) h) = [].
Proof. vm_compute. repeat split. Qed.

(** C3 (evaluation at the failing run).  A plays, B is enqueued behind it,
    A fails, C is enqueued: C plays at once while the older B still waits,
    and B plays only when C has ended.  The payloads were enqueued in the
    order A, B, C and played in the order A, C, B. *)
Theorem playback_order_broken_after_error :
  let evs := [Enqueue "QQ=="; Enqueue "Qg=="; EvError 0%nat; Enqueue "Qw=="] in
  enqueue_order (evs ++ [EvEnded 1%nat]) = ["QQ=="; "Qg=="; "Qw=="]%string
  /\ now_playing (run evs init) = ["Qw=="%string]
  /\ audioQueueRef (run evs init) = ["Qg=="%string]
  /\ play_order (run (evs ++ [EvEnded 1%nat]) init) = ["QQ=="; "Qw=="; "Qg=="]%string.
Proof. vm_compute. repeat split. Qed.

Lemma ended_lookup l a payload st :
  ended l !! a = Some (payload, st) -> st = Ended.
Proof.
  unfold ended. rewrite list_lookup_fmap.
  destruct (l !! a); simpl; [|done]. by intros [= _ <-].
Qed.

Lemma ended_none_playing l :
  List.filter (fun p : string * AudioStatus => bool_decide (p.2 = Playing)) (ended l) = [].
Proof. induction l as [|x l IH]; [done|]. simpl. done. Qed.

Lemma ended_snoc l payload : ended l ++ [(payload, Ended)] = ended (l ++ [payload]).
Proof. unfold ended. by rewrite fmap_app. Qed.

Lemma fifo_inv_step enq e h :
  clean e -> fifo_inv enq h -> fifo_inv (enq ++ enqueue_order [e]) (step e h).
Proof.
  destruct h as [playing err q cur au].
  intros Hclean (Horder & Hq & Hau). unfold play_order in *. simpl in *.
  destruct e as [payload|a|a|a|seen payload]; try done; simpl.
  - destruct Hclean as [Hne Hok].
    unfold playAudio, playAudio_in_render, fifo_inv, play_order. simpl.
    destruct playing; simpl.
    + split; [by rewrite app_assoc, Horder|]. split; [|done].
      apply Forall_app. split; [done|]. by constructor.
    + destruct Hau as [-> [l ->]]. rewrite Hok. simpl.
      rewrite app_nil_r in Horder. split.
      { by rewrite fmap_app, app_nil_r, Horder. }
      split; [done|]. exists l, payload. split; [done|].
      unfold ended. by rewrite length_fmap.
  - rewrite app_nil_r.
    destruct playing.
    + destruct Hau as (l & payload & -> & ->).
      destruct (decide (a = length l)) as [->|Hne].
      * assert (Hlen : length (ended l) = length l)
          by (unfold ended; by rewrite length_fmap).
        rewrite lookup_app_r by lia. rewrite Hlen, Nat.sub_diag. simpl.
        unfold set_status. simpl.
        rewrite lookup_app_r by lia. rewrite Hlen, Nat.sub_diag. simpl.
        replace (length l) with (length (ended l) + 0)%nat by lia.
        rewrite insert_app_r. simpl. rewrite ended_snoc.
        unfold onended. simpl.
        destruct q as [|next rest]; simpl.
        { unfold fifo_inv, play_order. simpl.
          rewrite <- ended_snoc, fmap_app. simpl.
          rewrite fmap_app in Horder. simpl in Horder.
          split; [done|]. split; [done|]. split; [done|].
          exists (l ++ [payload]). by rewrite ended_snoc. }
        apply Forall_cons in Hq as [[Hnext Hok] Hrest].
        rewrite decide_False by done.
        unfold playAudio_in_render. simpl. rewrite Hok.
        unfold fifo_inv, play_order. simpl.
        split.
        { rewrite <- ended_snoc, !fmap_app. simpl.
          rewrite fmap_app in Horder. simpl in Horder.
          by rewrite <- !app_assoc in *. }
        split; [done|]. exists (l ++ [payload]), next. split; [done|].
        unfold ended. by rewrite length_fmap.
      * destruct ((ended l ++ [(payload, Playing)]) !! a) as [[payload' st]|] eqn:Ha;
          [|by (split; [|split; [|exists l, payload]])].
        apply lookup_app_Some in Ha as [Ha|[Hge Ha]].
        { apply ended_lookup in Ha as ->.
          by (split; [|split; [|exists l, payload]]). }
        unfold ended in Hge. rewrite length_fmap in Hge.
        unfold ended in Ha. rewrite length_fmap in Ha.
        destruct (a - length l)%nat as [|n] eqn:Hd; [lia|]. by destruct n.
    + destruct Hau as [-> [l ->]].
      destruct (ended l !! a) as [[payload st]|] eqn:Ha.
      * apply ended_lookup in Ha as ->.
        by (split; [|split; [|split; [|exists l]]]).
      * by (split; [|split; [|split; [|exists l]]]).
Qed.

Lemma fifo_inv_run evs enq h :
  Forall clean evs -> fifo_inv enq h ->
  fifo_inv (enq ++ enqueue_order evs) (run evs h).
Proof.
  revert enq h. induction evs as [|e evs IH]; intros enq h Hall Hinv.
  - by rewrite app_nil_r.
  - apply Forall_cons in Hall as [He Hevs].
    change (run (e :: evs) h) with (run evs (step e h)).
    replace (enq ++ enqueue_order (e :: evs))
      with ((enq ++ enqueue_order [e]) ++ enqueue_order evs).
    + apply IH; [done|]. by apply fifo_inv_step.
    + rewrite <- app_assoc. f_equal. unfold enqueue_order. simpl.
      by destruct e.
Qed.

(** X21. What does hold of the queue: in every run in which no element
    fails, every payload is not empty and decodable, and every call of
    playAudio goes through the closure of the latest render (it reads the
    current isPlaying), what has started playing followed by what waits is
    the enqueue order, at most one element plays, and isPlaying holds
    exactly while one does. *)
Lemma playback_fifo_without_failures evs :
  Forall clean evs ->
  play_order (run evs init) ++ audioQueueRef (run evs init) = enqueue_order evs
  /\ (length (now_playing (run evs init)) <= 1)%nat
  /\ (isPlaying (run evs init) = true <-> now_playing (run evs init) <> []).
Proof.
  intros Hall.
  assert (Hinit : fifo_inv [] init).
  { split; [done|]. split; [done|]. split; [done|]. by exists []. }
  destruct (fifo_inv_run evs [] init Hall Hinit) as (Horder & _ & Hau).
  split; [done|]. unfold now_playing.
  destruct (isPlaying (run evs init)).
  - destruct Hau as (l & payload & -> & _).
    rewrite List.filter_app, ended_none_playing. simpl. split; [lia|]. done.
  - destruct Hau as [_ [l ->]]. rewrite ended_none_playing. simpl.
    split; [lia|]. split; [done|]. by intros [].
Qed.

End PlaybackFacts.

(** ** VoiceSessionController *)

Section ControllerFacts.
Import Voice Controller.

(** A response that carries text and both identifiers is handled to the
    end: both identifiers are adopted. *)
Lemma response_with_both_ids_adopted now t audio c l p :
  t <> ""%string -> c <> ""%string -> l <> ""%string ->
  exists p', onMessage now (response_message t audio (Some c) (Some l)) p = Done p'
    /\ conversationId (interactionState p') = Some c
    /\ leadId (interactionState p') = Some l.
Proof.
  intros Ht Hc Hl. unfold onMessage, on_response, truthy. simpl.
  rewrite !decide_False by done. simpl. eexists. split; [done|].
  by destruct (audio); [case_decide|].
Qed.

(** No inbound message replaces an identifier the page holds by null. *)
Lemma deliver_keeps_ids now m p :
  (is_Some (conversationId (interactionState p)) ->
   is_Some (conversationId (interactionState (deliver now m p))))
  /\ (is_Some (leadId (interactionState p)) ->
      is_Some (leadId (interactionState (deliver now m p)))).
Proof.
  unfold deliver, onMessage, on_response.
  destruct m as [ty st tx au ci fs li er]; simpl.
  destruct ty, st, (truthy tx), (truthy ci), (truthy li), (truthy au); simpl; eauto.
Qed.

(** C6 (evaluation at the failing inputs).  The page holds no identifiers.
    A response with text and conversation_id c1 but no lead_id makes
    onMessage throw on the lookup of prev, and the page is as before:
    conversationId is still null and no entry was appended.  The same holds
    for a response with lead_id l1 and no conversation_id. *)
Theorem controller_partial_ids_not_adopted :
  let p := initial_page None None in
  let m1 := response_message "olá" None (Some "c1"%string) None in
  let m2 := response_message "olá" None None (Some "l1"%string) in
  onMessage 1 m1 p = ReferenceError "prev"
  /\ conversationId (interactionState (deliver 1 m1 p)) = None
  /\ transcriptions (interactionState (deliver 1 m1 p)) = []
  /\ onMessage 1 m2 p = ReferenceError "prev"
  /\ leadId (interactionState (deliver 1 m2 p)) = None.
Proof. vm_compute. repeat split. Qed.




End ControllerFacts.

(** * Further properties of the hooks *)

(** ** SessionPersistence: load and refresh *)

Section SessionMore.
Import Session.

(** X1. A record saved in one mount is what the next mount loads, as long as
    the clock has not passed expiresAt; after that the next mount loads
    nothing and removes the entry. *)
Theorem session_save_then_load o c l t t0 h now :
  let saved := saveSession o c l t t0 true h in
  let next := loadSession o now (init (localStorage saved)) in
  (now <= t0 + sessionTimeout o ->
     sessionData next = sessionData saved
     /\ localStorage next = localStorage saved)
  /\ (t0 + sessionTimeout o < now ->
        sessionData next = None
        /\ localStorage next !! storageKey o = None).
Proof.
  simpl. unfold loadSession. simpl. rewrite lookup_insert_eq. simpl. split.
  - intros Hle. destruct (Z.ltb_spec (t0 + sessionTimeout o) now); [lia|done].
  - intros Hlt. destruct (Z.ltb_spec (t0 + sessionTimeout o) now); [|lia].
    simpl. split; [done|]. apply lookup_delete_eq.
Qed.

Lemma session_save_then_load_witness :
  returned_conversationId
    (loadSession default_options 1801000
       (init (localStorage
                (saveSession default_options "c1" None 1000 1000 true (init ∅)))))
  = Some "c1"%string
  /\ sessionData
       (loadSession default_options 1801001
          (init (localStorage
                   (saveSession default_options "c1" None 1000 1000 true (init ∅)))))
     = None.
Proof.
  destruct (session_save_then_load default_options "c1" None 1000 1000
              (init ∅) 1801000) as [Hin _].
  destruct (session_save_then_load default_options "c1" None 1000 1000
              (init ∅) 1801001) as [_ Hout].
  split.
  - unfold returned_conversationId. destruct Hin as [-> _]; [|reflexivity].
    unfold default_options, DEFAULT_SESSION_TIMEOUT. simpl. lia.
  - apply Hout. unfold default_options, DEFAULT_SESSION_TIMEOUT. simpl. lia.
Defined.

(** X2. The two expiry tests do not agree at the instant of expiry: a mount
    at exactly expiresAt loads the stored record (the load tests now >
    expiresAt) and the record it loaded is at once reported not valid (the
    check tests now < expiresAt). *)
Theorem session_loaded_at_expiry_is_not_valid o d store :
  store !! storageKey o = Some (Json d) ->
  sessionData (loadSession o (expiresAt d) (init store)) = Some d
  /\ isSessionValid (expiresAt d) (loadSession o (expiresAt d) (init store)) = false.
Proof.
  intros Hd. unfold loadSession, isSessionValid. simpl. rewrite Hd.
  rewrite Z.ltb_irrefl. simpl. split; [done|]. apply Z.ltb_irrefl.
Qed.

Lemma session_loaded_at_expiry_is_not_valid_witness :
  let d := {| conversationId := Some "c1"%string; leadId := None;
              timestamp := 0; expiresAt := 5 |} in
  sessionData (loadSession default_options 5
                 (init {[ DEFAULT_STORAGE_KEY := Json d ]})) = Some d
  /\ isSessionValid 5 (loadSession default_options 5
                         (init {[ DEFAULT_STORAGE_KEY := Json d ]})) = false.
Proof.
  intros d.
  apply (session_loaded_at_expiry_is_not_valid default_options d
           {[ DEFAULT_STORAGE_KEY := Json d ]}).
  apply lookup_singleton_eq.
Defined.

(** X4. refreshSession without a record does nothing; with one it keeps the
    identifiers and the creation time, writes the record back, and makes it
    valid from the refresh until the timeout has passed again. *)
Theorem session_refresh_extends o now h :
  (sessionData h = None -> forall ok, refreshSession o now ok h = h)
  /\ (forall d, sessionData h = Some d ->
        let h' := refreshSession o now true h in
        (sessionData h' ≫= conversationId) = conversationId d
        /\ (sessionData h' ≫= leadId) = leadId d
        /\ (timestamp <$> sessionData h') = Some (timestamp d)
        /\ localStorage h' !! storageKey o = Json <$> sessionData h'
        /\ forall probe, isSessionValid probe h' = true <->
                         probe < now + sessionTimeout o).
Proof.
  unfold refreshSession, isSessionValid. split.
  - by intros ->.
  - intros d ->. simpl. rewrite lookup_insert_eq.
    repeat split; try done; by apply Z.ltb_lt.
Qed.

Lemma session_refresh_extends_witness :
  refreshSession default_options 5 true (init ∅) = init ∅
  /\ isSessionValid 1800004
       (refreshSession default_options 5 true
          (saveSession default_options "c1" None 0 0 true (init ∅))) = true.
Proof.
  destruct (session_refresh_extends default_options 5 (init ∅)) as [Hnone _].
  destruct (session_refresh_extends default_options 5
              (saveSession default_options "c1" None 0 0 true (init ∅)))
    as [_ Hsome].
  split; [by apply Hnone|].
  destruct (Hsome _ eq_refl) as (_ & _ & _ & _ & Hvalid).
  apply Hvalid. unfold default_options, DEFAULT_SESSION_TIMEOUT. simpl. lia.
Defined.

End SessionMore.

(** ** SessionTransport: sockets, connection flag, disconnect, reconnect *)

Section TransportMore.
Import Transport.

(** X28. What does hold of the backoff, with the default options (three
    attempts, base delay 1000 ms): in every run from the mount that contains
    no manual reconnect() and no unmount, the Nth automatic attempt since
    the last successful open (or since the mount) was armed with a delay of
    1000 * 2^(N-1) ms, N is at most 3, and the counter is the number of
    attempts made since that open.  ws.onclose arms the timer and leaves
    the counter alone, at three it arms nothing, the timer callback
    increments the counter, and ws.onopen resets it. *)
Theorem transport_backoff_without_manual_calls :
  (forall evs, forallb automatic evs = true ->
     let h := run default_options evs mounted in
     Forall backoff_ok (attempts_from 0 (log h))
     /\ Z.of_nat (counter_after 0 (log h)) = reconnectCountRef h)
  /\ (forall h, reconnectCountRef h < 3 ->
        reconnectCountRef (onclose default_options h) = reconnectCountRef h
        /\ timers (onclose default_options h) =
             timers h ++ [(nextTimer h,
                           {| task := AutoReconnect;
                              delay := 1000 * 2 ^ reconnectCountRef h |})])
  /\ (forall h, 3 <= reconnectCountRef h ->
        timers (onclose default_options h) = timers h)
  /\ (forall h d,
        reconnectCountRef (run_timer {| task := AutoReconnect; delay := d |} h) =
        reconnectCountRef h + 1)
  /\ (forall h s, reconnectCountRef (onopen s h) = 0).
Proof.
  split; [|split; [|split; [|split]]].
  - intros evs Hauto h.
    by destruct (auto_inv_run evs mounted Hauto auto_inv_mounted)
      as (_ & _ & _ & ? & ?).
  - intros h Hlt. unfold onclose. simpl.
    destruct (Z.ltb_spec (reconnectCountRef h) 3); [done | lia].
  - intros h Hge. unfold onclose. simpl.
    destruct (Z.ltb_spec (reconnectCountRef h) 3); [lia | done].
  - intros h d. unfold run_timer. simpl. by rewrite connect_keeps_counter.
  - intros h s. apply onopen_resets_counter.
Qed.

Lemma transport_backoff_without_manual_calls_witness :
  attempts_from 0
    (log (run default_options
            [EvClose 0%nat; EvTimer 1%nat; EvClose 1%nat; EvTimer 2%nat;
             EvClose 2%nat; EvTimer 3%nat; EvClose 3%nat] mounted))
  = [(1%nat, 1000); (2%nat, 2000); (3%nat, 4000)]
  /\ Forall backoff_ok
       (attempts_from 0
          (log (run default_options
                  [EvClose 0%nat; EvTimer 1%nat; EvClose 1%nat; EvTimer 2%nat;
                   EvClose 2%nat; EvTimer 3%nat; EvClose 3%nat] mounted)))
  /\ timers (onclose default_options mounted) =
       [(1%nat, {| task := AutoReconnect; delay := 1000 |})]
  /\ timers (onclose default_options (set_reconnectCountRef 3 mounted)) = [].
Proof.
  destruct transport_backoff_without_manual_calls as (Hrun & Hlt & Hge & _).
  split; [reflexivity|]. split; [apply Hrun; reflexivity|]. split.
  - destruct (Hlt mounted) as [_ ->]; [simpl; lia | reflexivity].
  - rewrite Hge; [reflexivity | simpl; lia].
Defined.

(** X6. Without manual intervention the hook holds one socket at a time:
    every socket but the one in wsRef is closed, at most one timer is
    pending and only while no socket is held, and the counter stays within
    0..3. *)
Theorem transport_one_socket_at_a_time evs :
  forallb automatic evs = true ->
  let h := run default_options evs mounted in
  (forall i st, sockets h !! i = Some st -> st <> CLOSED -> wsRef h = Some i)
  /\ (length (timers h) <= 1)%nat
  /\ (timers h <> [] -> wsRef h = None)
  /\ 0 <= reconnectCountRef h <= 3.
Proof.
  intros Hauto h.
  destruct (auto_inv_run evs mounted Hauto auto_inv_mounted)
    as (Hc & Hlive & Htm & _ & _).
  subst h. split; [done|].
  destruct Htm as [Hnil|(Href & _ & t & Ht)].
  - rewrite Hnil. simpl. split; [lia|]. by split.
  - rewrite Ht. simpl. split; [lia|]. by split.
Qed.

Lemma transport_one_socket_at_a_time_witness :
  let h := run default_options
             [EvClose 0%nat; EvTimer 1%nat; EvOpen 1%nat; EvClose 1%nat] mounted in
  (length (timers h) <= 1)%nat /\ 0 <= reconnectCountRef h <= 3.
Proof.
  intros h.
  destruct (transport_one_socket_at_a_time
              [EvClose 0%nat; EvTimer 1%nat; EvOpen 1%nat; EvClose 1%nat])
    as (_ & Hlen & _ & Hc); [reflexivity|].
  by split.
Defined.

Lemma connected_step e h :
  automatic e = true -> auto_inv h ->
  (connectionState h = connected ->
   exists s, wsRef h = Some s
     /\ (sockets h !! s = Some OPEN \/ sockets h !! s = Some CLOSING)) ->
  connectionState (step default_options e h) = connected ->
  exists s, wsRef (step default_options e h) = Some s
    /\ (sockets (step default_options e h) !! s = Some OPEN
        \/ sockets (step default_options e h) !! s = Some CLOSING).
Proof.
  intros Ha (_ & Hlive & _) Hconn.
  destruct e as [s|s|s|s data|t|m| | |s]; try done; cbn [step].
  - case_bool_decide as Hs; [|done]. intros _.
    assert (Href : wsRef h = Some s) by (by apply (Hlive s CONNECTING)).
    unfold onopen.
    match goal with |- context [drain ?f s ?x] =>
      destruct (drain_frame f s x) as (-> & -> & _) end.
    simpl. exists s. split; [done|]. left.
    apply list_lookup_insert_eq. by eapply lookup_lt_Some.
  - destruct (sockets h !! s) as [[]|]; try done; unfold onclose; simpl;
      by destruct (reconnectCountRef h <? 3).
  - by destruct (sockets h !! s) as [[]|].
  - case_bool_decide; [|done]. by destruct data.
  - destruct (lookup_timer t h) as [[[] d]|]; [| |done]; unfold run_timer; simpl;
      unfold connect;
      match goal with |- context [ref_is_open ?x] =>
        destruct (ref_is_open x) eqn:Hopen end;
      simpl; first [done | exact Hconn].
  - assert (Hk : connectionState (sendMessage m h) = connectionState h
                 /\ wsRef (sendMessage m h) = wsRef h
                 /\ sockets (sendMessage m h) = sockets h).
    { unfold sendMessage.
      destruct (wsRef h) as [s|] eqn:Href; [case_bool_decide|]; done. }
    destruct Hk as (-> & -> & ->). exact Hconn.
  - case_bool_decide as Hs; [|done]. simpl. intros Hc.
    destruct (Hconn Hc) as (r & Href & Hst). exists r. split; [done|].
    destruct (decide (r = s)) as [->|Hn].
    + right. apply list_lookup_insert_eq. by eapply lookup_lt_Some.
    + by rewrite list_lookup_insert_ne.
Qed.

Lemma connected_run evs h :
  forallb automatic evs = true -> auto_inv h ->
  (connectionState h = connected ->
   exists s, wsRef h = Some s
     /\ (sockets h !! s = Some OPEN \/ sockets h !! s = Some CLOSING)) ->
  connectionState (run default_options evs h) = connected ->
  exists s, wsRef (run default_options evs h) = Some s
    /\ (sockets (run default_options evs h) !! s = Some OPEN
        \/ sockets (run default_options evs h) !! s = Some CLOSING).
Proof.
  revert h. induction evs as [|e evs IH]; intros h Hall Hinv Hconn; [done|].
  simpl in Hall. apply andb_prop in Hall as [He Hevs].
  change (run default_options (e :: evs) h)
    with (run default_options evs (step default_options e h)).
  apply IH; [done | by apply auto_inv_step | by apply connected_step].
Qed.

(** X7. Without manual intervention, whenever connectionState is connected,
    wsRef holds a socket that has opened and whose close event has not come
    yet.  Either it is still OPEN, and a send goes out on it at once; or the
    server has started the closing handshake and the browser has set it to
    CLOSING, and then a send transmits nothing and is queued, although the
    hook still reports connected. *)
Theorem transport_connected_flag evs :
  forallb automatic evs = true ->
  let h := run default_options evs mounted in
  connectionState h = connected ->
  exists s, wsRef h = Some s
    /\ ((sockets h !! s = Some OPEN
         /\ forall m, wire (sendMessage m h) = wire h ++ [(s, m)]
                      /\ messageQueueRef (sendMessage m h) = messageQueueRef h)
        \/ (sockets h !! s = Some CLOSING
            /\ forall m, wire (sendMessage m h) = wire h
                         /\ messageQueueRef (sendMessage m h) =
                              messageQueueRef h ++ [m])).
Proof.
  intros Hauto h Hconn.
  destruct (connected_run evs mounted Hauto auto_inv_mounted) as (s & Href & Hst);
    [done | done |].
  fold h in Href, Hst. exists s. split; [done|].
  destruct Hst as [Hopen|Hclosing]; [left|right]; (split; [done|]); intros m.
  - destruct (send_when_open m h) as (s' & Href' & Hw & Hq).
    { unfold ref_is_open. rewrite Href. by apply bool_decide_eq_true_2. }
    split; [congruence | done].
  - destruct (send_when_closed m h) as [Hq Hw]; [|done].
    unfold ref_is_open. rewrite Href. apply bool_decide_eq_false_2. congruence.
Qed.

Lemma transport_connected_flag_witness :
  (exists s,
     wsRef (run default_options [EvOpen 0%nat] mounted) = Some s
     /\ sockets (run default_options [EvOpen 0%nat] mounted) !! s = Some OPEN)
  /\ connectionState (run default_options [EvOpen 0%nat; EvClosing 0%nat] mounted)
     = connected
  /\ messageQueueRef
       (sendMessage (TextMsg "a")
          (run default_options [EvOpen 0%nat; EvClosing 0%nat] mounted))
     = [TextMsg "a"].
Proof.
  split; [|split; [reflexivity|]].
  - destruct (transport_connected_flag [EvOpen 0%nat]) as (s & Href & Hst);
      [reflexivity | reflexivity |].
    exists s. split; [exact Href|].
    destruct Hst as [[Hopen _]|[Hclosing _]]; [exact Hopen|].
    vm_compute in Href. injection Href as <-. discriminate Hclosing.
  - destruct (transport_connected_flag [EvOpen 0%nat; EvClosing 0%nat])
      as (s & Href & Hst); [reflexivity | reflexivity |].
    destruct Hst as [[Hopen _]|[_ Hq]].
    + vm_compute in Href. injection Href as <-. discriminate Hopen.
    + destruct (Hq (TextMsg "a")) as [_ ->]. reflexivity.
Defined.

Lemma filter_other_twice (t : nat) (l : list (nat * Timer)) :
  filter (fun p => p.1 ≠ t) (filter (fun p => p.1 ≠ t) l) =
  filter (fun p => p.1 ≠ t) l.
Proof.
  induction l as [|p l IH]; [done|].
  rewrite filter_cons. case_decide as Hp; [|done].
  rewrite filter_cons, decide_True by done. by rewrite IH.
Qed.

Lemma clearTimeout_twice t h : clearTimeout t (clearTimeout t h) = clearTimeout t h.
Proof. unfold clearTimeout. simpl. by rewrite filter_other_twice. Qed.

(** X8. disconnect is idempotent: a second call finds no socket in wsRef and
    the timer it would clear already cleared. *)
Theorem transport_disconnect_idempotent h :
  disconnect (disconnect h) = disconnect h.
Proof.
  destruct h as [cs lm es sk wr ws cnt tref q tms nt lg].
  destruct tref as [t|]; unfold disconnect; simpl.
  - pose proof (clearTimeout_twice t
      {| connectionState := cs; lastMessage := lm; errorState := es;
         sockets := sk; wire := wr; wsRef := ws; reconnectCountRef := cnt;
         reconnectTimeoutRef := Some t; messageQueueRef := q; timers := tms;
         nextTimer := nt; log := lg |}) as Htw.
    unfold clearTimeout in Htw. simpl in Htw. injection Htw as Htw.
    destruct ws as [s|]; simpl; unfold ws_close; simpl;
      [destruct (sk !! s) as [[]|]; simpl|]; unfold clearTimeout; simpl;
      by rewrite Htw.
  - destruct ws as [s|]; simpl; unfold ws_close; simpl;
      [destruct (sk !! s) as [[]|]; simpl|]; done.
Qed.

(** X9. What disconnect achieves in every state: the counter is zero, the
    send queue is as it was, and the timer whose id is in
    reconnectTimeoutRef is no longer pending. *)
Theorem transport_disconnect_cancels_tracked h :
  reconnectCountRef (disconnect h) = 0
  /\ messageQueueRef (disconnect h) = messageQueueRef h
  /\ (forall t, reconnectTimeoutRef h = Some t ->
        lookup_timer t (disconnect h) = None).
Proof. apply disconnect_effect. Qed.

Lemma transport_disconnect_cancels_tracked_witness :
  lookup_timer 1 (disconnect (run default_options [EvClose 0%nat] mounted)) = None.
Proof.
  destruct (transport_disconnect_cancels_tracked
              (run default_options [EvClose 0%nat] mounted)) as (_ & _ & Hoff).
  by apply Hoff.
Defined.

Lemma exhausted_step e h :
  automatic e = true -> exhausted h ->
  exhausted (step default_options e h)
  /\ sockets (step default_options e h) = sockets h
  /\ reconnectCountRef (step default_options e h) = reconnectCountRef h
  /\ wire (step default_options e h) = wire h
  /\ log (step default_options e h) = log h
  /\ messageQueueRef (step default_options e h) = messageQueueRef h ++ sent [e].
Proof.
  intros Ha (Href & Htm & Hclosed).
  assert (Hsock : forall s, sockets h !! s = None \/ sockets h !! s = Some CLOSED).
  { intros s. destruct (sockets h !! s) as [st|] eqn:Hs; [right|by left].
    f_equal. by eapply (proj1 (Forall_lookup _ _) Hclosed). }
  destruct e as [s|s|s|s data|t|m| | |s]; try done; cbn [step]; simpl (sent _);
    rewrite ?app_nil_r.
  - destruct (Hsock s) as [Hs|Hs]; rewrite Hs;
      rewrite bool_decide_eq_false_2 by done; done.
  - destruct (Hsock s) as [-> | ->]; done.
  - destruct (Hsock s) as [-> | ->]; done.
  - destruct (Hsock s) as [Hs|Hs]; rewrite Hs;
      rewrite bool_decide_eq_false_2 by done; done.
  - unfold lookup_timer. by rewrite Htm.
  - unfold sendMessage. rewrite Href. done.
  - destruct (Hsock s) as [Hs|Hs]; rewrite Hs;
      rewrite bool_decide_eq_false_2 by done; done.
Qed.

(** X10. Once the attempts are used up (no socket left, no timer pending),
    the hook stays as it is under every event short of a manual reconnect()
    or an unmount: no socket is created, no timer armed, nothing is sent,
    and what is passed to send is queued. *)
Theorem transport_exhausted_is_terminal evs0 evs :
  forallb automatic evs0 = true -> forallb automatic evs = true ->
  let h := run default_options evs0 mounted in
  wsRef h = None -> timers h = [] ->
  let h' := run default_options evs h in
  sockets h' = sockets h /\ timers h' = [] /\ wsRef h' = None
  /\ reconnectCountRef h' = reconnectCountRef h
  /\ wire h' = wire h
  /\ log h' = log h
  /\ messageQueueRef h' = messageQueueRef h ++ sent evs.
Proof.
  intros Hauto0 Hauto h Href Htm.
  assert (Hex : exhausted h).
  { destruct (auto_inv_run evs0 mounted Hauto0 auto_inv_mounted)
      as (_ & Hlive & _).
    split; [done|]. split; [done|]. apply Forall_lookup. intros i st Hi.
    destruct (decide (st = CLOSED)) as [|Hne]; [done|].
    specialize (Hlive i st Hi Hne). fold h in Hlive. congruence. }
  clearbody h. clear Href Htm Hauto0. revert h Hex.
  induction evs as [|e evs IH]; intros h Hex h'; subst h'.
  - destruct Hex as (? & ? & ?). by rewrite app_nil_r.
  - simpl in Hauto. apply andb_prop in Hauto as [He Hevs].
    change (run default_options (e :: evs) h)
      with (run default_options evs (step default_options e h)).
    destruct (exhausted_step e h He Hex) as (Hex' & Hs & Hc & Hw & Hl & Hq).
    destruct (IH Hevs _ Hex') as (-> & -> & -> & -> & -> & -> & ->).
    rewrite Hs, Hc, Hw, Hl, Hq, <- app_assoc.
    repeat split; try done. f_equal. unfold sent. simpl. by destruct e.
Qed.

Lemma transport_exhausted_is_terminal_witness :
  let h := run default_options
             [EvClose 0%nat; EvTimer 1%nat; EvClose 1%nat; EvTimer 2%nat;
              EvClose 2%nat; EvTimer 3%nat; EvClose 3%nat] mounted in
  let h' := run default_options [EvTimer 3%nat; Send (TextMsg "a"); EvOpen 3%nat] h in
  sockets h' = sockets h /\ timers h' = [] /\ messageQueueRef h' = [TextMsg "a"].
Proof.
  intros h h'.
  destruct (transport_exhausted_is_terminal
              [EvClose 0%nat; EvTimer 1%nat; EvClose 1%nat; EvTimer 2%nat;
               EvClose 2%nat; EvTimer 3%nat; EvClose 3%nat]
              [EvTimer 3%nat; Send (TextMsg "a"); EvOpen 3%nat])
    as (Hs & Ht & _ & _ & _ & _ & Hq); try reflexivity.
  split; [exact Hs|]. split; [exact Ht|]. exact Hq.
Defined.

Lemma drain_keeps_timers fuel s h :
  timers (drain fuel s h) = timers h /\ nextTimer (drain fuel s h) = nextTimer h.
Proof.
  revert h. induction fuel as [|fuel IH]; intros h; simpl; [done|].
  destruct (messageQueueRef h) as [|m q]; [done|].
  case_bool_decide; match goal with |- context [drain fuel s ?x] =>
    destruct (IH x) as [-> ->] end; done.
Qed.

Lemma fresh_after_setTimeout (n : nat) (tm : Timer) (l : list (nat * Timer)) :
  Forall (fun p : nat * Timer => (p.1 < n)%nat) l ->
  Forall (fun p : nat * Timer => (p.1 < S n)%nat) (l ++ [(n, tm)]).
Proof.
  intros Hl. apply Forall_app. split.
  - eapply Forall_impl; [done|]. simpl. lia.
  - constructor; [simpl; lia | constructor].
Qed.

Lemma fresh_after_clear (n t : nat) (l : list (nat * Timer)) :
  Forall (fun p : nat * Timer => (p.1 < n)%nat) l ->
  Forall (fun p : nat * Timer => (p.1 < n)%nat) (filter (fun p => p.1 ≠ t) l).
Proof.
  induction 1 as [|p l Hp Hl IH]; [done|].
  rewrite filter_cons. case_decide; [by constructor | done].
Qed.

Lemma fresh_timers_connect h : fresh_timers h -> fresh_timers (connect h).
Proof. unfold connect, fresh_timers. by destruct (ref_is_open h). Qed.

Lemma fresh_timers_disconnect h : fresh_timers h -> fresh_timers (disconnect h).
Proof.
  destruct h as [cs lm es sk wr [s|] cnt [t|] q tms nt lg];
    unfold fresh_timers, disconnect, ws_close; simpl; intros Hf;
    try (destruct (sk !! s) as [[]|]; simpl);
    try done; by apply fresh_after_clear.
Qed.

Lemma fresh_timers_step o e h :
  fresh_timers h -> fresh_timers (step o e h).
Proof.
  intros Hf. destruct e as [s|s|s|s data|t|m| | |s]; cbn [step].
  - case_bool_decide; [|done]. unfold onopen, fresh_timers.
    match goal with |- context [drain ?f s ?x] =>
      destruct (drain_keeps_timers f s x) as [-> ->] end. done.
  - destruct (sockets h !! s) as [[]|]; try done; unfold onclose, fresh_timers;
      simpl; destruct (reconnectCountRef h <? reconnectAttempts o); simpl;
      try done; by apply fresh_after_setTimeout.
  - by destruct (sockets h !! s) as [[]|].
  - case_bool_decide; [|done]. by destruct data.
  - destruct (lookup_timer t h) as [[[] d]|]; [| |done]; unfold run_timer;
      simpl; apply fresh_timers_connect; unfold fresh_timers; simpl;
      by apply fresh_after_clear.
  - unfold sendMessage.
    destruct (wsRef h) as [s|]; [case_bool_decide|]; done.
  - unfold reconnect.
    pose proof (fresh_timers_disconnect (console LManual h) Hf) as Hd.
    unfold fresh_timers in *. simpl. by apply fresh_after_setTimeout.
  - by apply fresh_timers_disconnect.
  - by case_bool_decide.
Qed.

Lemma fresh_timers_run o evs h :
  fresh_timers h -> fresh_timers (run o evs h).
Proof.
  revert h. induction evs as [|e evs IH]; intros h Hf; [done|].
  simpl. by apply IH, fresh_timers_step.
Qed.

Lemma find_fresh (n : nat) (tm : Timer) (l : list (nat * Timer)) :
  Forall (fun p : nat * Timer => (p.1 < n)%nat) l ->
  find (fun p : nat * Timer => (p.1 =? n)%nat) (l ++ [(n, tm)]) = Some (n, tm).
Proof.
  induction 1 as [|p l Hp Hl IH]; simpl.
  - by rewrite Nat.eqb_refl.
  - destruct (Nat.eqb_spec p.1 n); [lia|done].
Qed.

(** X11. reconnect() brings the hook back from any state a run can reach:
    when the timer it armed fires, wsRef holds a new socket that is
    connecting, the counter is zero, the error is cleared, and the send
    queue is as it was before the call. *)
Theorem transport_reconnect_revives o evs :
  let h := run o evs mounted in
  let h' := step o (EvTimer (nextTimer h)) (reconnect h) in
  wsRef h' = Some (length (sockets h))
  /\ sockets h' !! length (sockets h) = Some CONNECTING
  /\ connectionState h' = connecting
  /\ errorState h' = None
  /\ reconnectCountRef h' = 0
  /\ messageQueueRef h' = messageQueueRef h.
Proof.
  intros h h'.
  assert (Hf : fresh_timers h) by (apply fresh_timers_run; constructor).
  subst h'. clearbody h.
  destruct h as [cs lm es sk wr ws cnt tref q tms nt lg].
  unfold fresh_timers in Hf. simpl in Hf.
  assert (Hcl : forall t,
    find (fun p : nat * Timer => (p.1 =? nt)%nat)
         (filter (fun p => p.1 ≠ t) tms
            ++ [(nt, {| task := ManualConnect; delay := 100 |})])
    = Some (nt, {| task := ManualConnect; delay := 100 |})).
  { intros t. by apply find_fresh, fresh_after_clear. }
  pose proof (find_fresh nt {| task := ManualConnect; delay := 100 |} tms Hf)
    as Hkeep.
  destruct tref as [t|], ws as [s|]; cbn [step]; unfold lookup_timer, reconnect,
    disconnect, ws_close; simpl;
    try (destruct (sk !! s) as [[]|] eqn:Hs; simpl);
    rewrite ?Hcl, ?Hkeep; simpl;
    unfold run_timer, connect, ref_is_open; simpl;
    rewrite ?length_insert, ?lookup_app_r by (rewrite ?length_insert; lia);
    rewrite ?length_insert, ?Nat.sub_diag;
    done.
Qed.

End TransportMore.

(** ** AudioCaptureEngine: what a recording acquires, collects and releases *)

Section CaptureMore.
Import Capture.

Lemma start_granted_fields o level h :
  let h' := startRecording o Granted level h in
  recorders h' = recorders h ++ [{| rstate := recording; stop_queued := false |}]
  /\ mediaRecorderRef h' = Some (length (recorders h))
  /\ chunksRef h' = [] /\ completed h' = completed h
  /\ streams h' = streams h ++ [true]
  /\ streamRef h' = Some (length (streams h))
  /\ contexts h' = contexts h ++ [true]
  /\ audioContextRef h' = Some (length (contexts h))
  /\ isRecording h' = true.
Proof.
  destruct h as [rec lvl err rs ss cs mr ac an sr ch st ci tm nt fr cp].
  unfold startRecording, startRecording_in_render, monitorAudioLevel. simpl.
  destruct (Qlt_bool level (silenceThreshold (config o) * 100)), st, rec,
    (onAudioChunk o); done.
Qed.

Lemma stopRecording_streams h :
  streams (stopRecording h) =
    match streamRef h with
    | Some s => <[s := false]> (streams h)
    | None => streams h
    end
  /\ contexts (stopRecording h) =
    match audioContextRef h with
    | Some c => <[c := false]> (contexts h)
    | None => contexts h
    end.
Proof.
  destruct h as [rec lvl err rs ss cs mr ac an sr ch st ci tm nt fr cp].
  unfold stopRecording; simpl.
  destruct ci as [ci|], st as [st|]; simpl;
    (destruct mr as [r|]; simpl;
     [destruct (rs !! r) as [[state q]|] eqn:Hr; simpl;
      [destruct (decide (state = inactive)) as [->|Hact]; simpl|]|]);
    destruct sr as [s|], ac as [a|]; simpl; done.
Qed.

Lemma data_run o r q ds h :
  recorders h !! r = Some {| rstate := recording; stop_queued := q |} ->
  let h' := run o (EvData r <$> ds) h in
  chunksRef h' = chunksRef h ++ List.filter has_data ds
  /\ recorders h' = recorders h
  /\ mediaRecorderRef h' = mediaRecorderRef h
  /\ completed h' = completed h.
Proof.
  revert h. induction ds as [|d ds IH]; intros h Hr.
  - simpl. by rewrite app_nil_r.
  - change (run o (EvData r <$> d :: ds) h)
      with (run o (EvData r <$> ds) (step o (EvData r d) h)).
    cbn [step]. rewrite Hr. unfold ondataavailable. simpl List.filter.
    unfold has_data at 1. destruct (0 <? String.length d)%nat.
    + destruct (IH (set_chunksRef (chunksRef h ++ [d]) h)) as (-> & -> & -> & ->);
        [done|]. simpl. by rewrite <- app_assoc.
    + by apply IH.
Qed.

(** X12. What a recording hands to onRecordingComplete is everything the
    recorder delivered, in order: the chunks of the dataavailable events
    that had data, followed by the last chunk if it has data; empty chunks
    leave no trace. *)
Theorem capture_final_blob_is_all_chunks o level h ds last :
  onRecordingComplete o = true ->
  let r := length (recorders h) in
  let h1 := startRecording o Granted level h in
  let h2 := stopRecording (run o (EvData r <$> ds) h1) in
  completed (step o (EvStopped r last) h2) =
    completed h ++ [String.concat "" (List.filter has_data (ds ++ [last]))].
Proof.
  intros Hcb r h1 h2.
  destruct (start_granted_fields o level h) as (Hrs & Hmr & Hch & Hcp & _).
  fold h1 in Hrs, Hmr, Hch, Hcp.
  assert (Hr : recorders h1 !! r = Some {| rstate := recording; stop_queued := false |}).
  { rewrite Hrs. subst r. by rewrite lookup_app_r, Nat.sub_diag by lia. }
  destruct (data_run o r false ds h1 Hr) as (Hch' & Hrs' & Hmr' & Hcp').
  destruct (stopRecording_keeps (run o (EvData r <$> ds) h1)) as (Hch2 & Hcp2 & Hrs2).
  fold h2 in Hch2, Hcp2, Hrs2.
  rewrite Hmr', Hmr, Hrs' in Hrs2. fold r in Hrs2. rewrite Hr in Hrs2.
  rewrite decide_False in Hrs2 by done.
  assert (Hq : recorders h2 !! r = Some {| rstate := inactive; stop_queued := true |}).
  { rewrite Hrs2. apply list_lookup_insert_eq. by eapply lookup_lt_Some. }
  destruct (stopped_delivers o r last inactive h2 Hcb Hq) as [-> _].
  rewrite Hcp2, Hcp', Hcp. do 2 f_equal.
  rewrite List.filter_app. simpl. unfold ondataavailable. fold (has_data last).
  destruct (has_data last); cbn [chunksRef set_chunksRef];
    rewrite Hch2, Hch', Hch; simpl; by rewrite ?app_nil_r.
Qed.

Lemma capture_final_blob_is_all_chunks_witness :
  completed
    (step default_options (EvStopped 0%nat "c")
       (stopRecording
          (run default_options (EvData 0%nat <$> ["a"; ""; "b"]%string)
             (startRecording default_options Granted 0%Q init))))
  = ["abc"%string].
Proof.
  apply (capture_final_blob_is_all_chunks default_options 0%Q init
           ["a"; ""; "b"]%string "c"%string).
  reflexivity.
Defined.

Definition clear_opt (r : option nat) (l : list (nat * Timer)) : list (nat * Timer) :=
  match r with
  | Some t => filter (fun p => p.1 ≠ t) l
  | None => l
  end.

Lemma stopRecording_timers h :
  timers (stopRecording h) =
  clear_opt (silenceTimeoutRef h) (clear_opt (chunkIntervalRef h) (timers h)).
Proof.
  destruct h as [rec lvl err rs ss cs mr ac an sr ch st ci tm nt fr cp].
  unfold stopRecording; simpl.
  destruct ci as [ci|], st as [st|]; simpl;
    (destruct mr as [r|]; simpl;
     [destruct (rs !! r) as [[state q]|] eqn:Hr; simpl;
      [destruct (decide (state = inactive)) as [->|Hact]; simpl|]|]);
    destruct sr as [s|], ac as [a|]; simpl; done.
Qed.

Lemma start_granted_timers o level h :
  isRecording h = false -> silenceTimeoutRef h = None -> chunkIntervalRef h = None ->
  let below := Qlt_bool level (silenceThreshold (config o) * 100) in
  let n := nextTimer h in
  let h' := startRecording o Granted level h in
  timers h' =
    (let armed :=
       if below
       then timers h ++
            [(n, {| task := SilenceStop; delay := silenceDuration (config o) |})]
       else timers h in
     if onAudioChunk o
     then armed ++ [(if below then S n else n,
                     {| task := ChunkTick (length (recorders h));
                        delay := chunkInterval (config o) |})]
     else armed)
  /\ silenceTimeoutRef h' = (if below then Some n else None)
  /\ chunkIntervalRef h' =
       (if onAudioChunk o then Some (if below then S n else n) else None).
Proof.
  destruct h as [rec lvl err rs ss cs mr ac an sr ch st ci tm nt fr cp].
  cbn [isRecording silenceTimeoutRef chunkIntervalRef]. intros -> -> ->.
  unfold startRecording, startRecording_in_render, monitorAudioLevel.
  cbn [isRecording].
  destruct (Qlt_bool level (silenceThreshold (config o) * 100)),
    (onAudioChunk o); repeat split.
Qed.

Lemma filter_fresh (n t : nat) (l : list (nat * Timer)) :
  Forall (fun p : nat * Timer => (p.1 < n)%nat) l -> (n <= t)%nat ->
  filter (fun p => p.1 ≠ t) l = l.
Proof.
  intros Hl Hle. induction Hl as [|p l Hp Hl IH]; [done|].
  rewrite filter_cons, decide_True by lia. by rewrite IH.
Qed.

(** X13. A recording that is started from the released state and then
    stopped leaves nothing behind: the timers are those from before, the
    stream it opened is stopped, the audio context it created is closed, its
    recorder is inactive, and the hook is released again. *)
Theorem capture_cycle_releases_everything o level h :
  released h -> fresh_timers h ->
  let h' := stopRecording (startRecording o Granted level h) in
  timers h' = timers h
  /\ streams h' = streams h ++ [false]
  /\ contexts h' = contexts h ++ [false]
  /\ recorders h' = recorders h ++ [{| rstate := inactive; stop_queued := true |}]
  /\ released h'.
Proof.
  intros (Hrec & Hlvl & Hci & Hst & Hsr & Hac & Hmr) Hf h'.
  split; [|split; [|split; [|split; [|apply stopRecording_released]]]].
  - subst h'. rewrite stopRecording_timers.
    destruct (start_granted_timers o level h Hrec Hst Hci) as (-> & -> & ->).
    unfold fresh_timers in Hf.
    pose proof (filter_fresh _ (nextTimer h) _ Hf (le_n _)) as H0.
    pose proof (filter_fresh _ (S (nextTimer h)) _ Hf (le_S _ _ (le_n _))) as H1.
    destruct (Qlt_bool level (silenceThreshold (config o) * 100)),
      (onAudioChunk o); unfold clear_opt;
      repeat first
        [ rewrite filter_app | rewrite H0 | rewrite H1
        | rewrite filter_cons_True by (simpl; lia)
        | rewrite filter_cons_False by (simpl; lia)
        | rewrite filter_nil | rewrite app_nil_r ];
      done.
  - destruct (stopRecording_streams (startRecording o Granted level h)) as [Hs _].
    destruct (start_granted_fields o level h) as (_ & _ & _ & _ & Hss & Hsr' & _).
    subst h'. rewrite Hs, Hsr', Hss.
    replace (length (streams h)) with (length (streams h) + 0)%nat by lia.
    by rewrite insert_app_r.
  - destruct (stopRecording_streams (startRecording o Granted level h)) as [_ Hc].
    destruct (start_granted_fields o level h)
      as (_ & _ & _ & _ & _ & _ & Hcs & Hac' & _).
    subst h'. rewrite Hc, Hac', Hcs.
    replace (length (contexts h)) with (length (contexts h) + 0)%nat by lia.
    by rewrite insert_app_r.
  - destruct (stopRecording_keeps (startRecording o Granted level h)) as (_ & _ & Hr).
    destruct (start_granted_fields o level h) as (Hrs & Hmr' & _).
    subst h'. rewrite Hr, Hmr', Hrs.
    rewrite lookup_app_r, Nat.sub_diag by lia. simpl.
    replace (length (recorders h)) with (length (recorders h) + 0)%nat at 1 by lia.
    by rewrite insert_app_r.
Qed.

Lemma capture_cycle_releases_everything_witness :
  timers (stopRecording (startRecording default_options Granted 0%Q init)) = []
  /\ streams (stopRecording (startRecording default_options Granted 0%Q init)) = [false].
Proof.
  destruct (capture_cycle_releases_everything default_options 0%Q init)
    as (Ht & Hs & _).
  - by repeat split.
  - constructor.
  - by split.
Defined.

(** X14. A second startRecording without a stop in between abandons what the
    first one acquired: after stopRecording the first stream still runs and
    the first recorder still records; only the second ones are released. *)
Theorem capture_second_start_orphans_first o level1 level2 h :
  let h' := stopRecording
              (startRecording o Granted level2 (startRecording o Granted level1 h)) in
  streams h' !! length (streams h) = Some true
  /\ streams h' !! S (length (streams h)) = Some false
  /\ recorders h' !! length (recorders h) =
       Some {| rstate := recording; stop_queued := false |}
  /\ recorders h' !! S (length (recorders h)) =
       Some {| rstate := inactive; stop_queued := true |}.
Proof.
  intros h'.
  set (h1 := startRecording o Granted level1 h).
  destruct (start_granted_fields o level1 h)
    as (Hrs1 & _ & _ & _ & Hss1 & _). fold h1 in Hrs1, Hss1.
  destruct (start_granted_fields o level2 h1)
    as (Hrs2 & Hmr2 & _ & _ & Hss2 & Hsr2 & _).
  destruct (stopRecording_streams (startRecording o Granted level2 h1)) as [Hs _].
  destruct (stopRecording_keeps (startRecording o Granted level2 h1)) as (_ & _ & Hr).
  subst h'. fold h1. rewrite Hs, Hsr2, Hss2, Hr, Hmr2, Hrs2, Hss1, Hrs1.
  rewrite !length_app. simpl.
  rewrite (lookup_app_r (recorders h ++ _)) by (rewrite length_app; simpl; lia).
  rewrite length_app. simpl.
  replace (length (recorders h) + 1 - (length (recorders h) + 1))%nat with 0%nat by lia.
  simpl.
  replace (length (streams h) + 1)%nat with (length (streams h ++ [true]) + 0)%nat
    by (rewrite length_app; simpl; lia).
  replace (length (recorders h) + 1)%nat
    with (length (recorders h ++ [{| rstate := recording; stop_queued := false |}]) + 0)%nat
    by (rewrite length_app; simpl; lia).
  rewrite !insert_app_r. simpl.
  repeat split.
  - rewrite lookup_app_l by (rewrite length_app; simpl; lia).
    by rewrite lookup_app_r, Nat.sub_diag by lia.
  - rewrite lookup_app_r by (rewrite length_app; simpl; lia).
    rewrite length_app. simpl.
    by replace (S (length (streams h)) - (length (streams h) + 1))%nat with 0%nat by lia.
  - rewrite lookup_app_l by (rewrite length_app; simpl; lia).
    by rewrite lookup_app_r, Nat.sub_diag by lia.
  - rewrite lookup_app_r by (rewrite length_app; simpl; lia).
    rewrite length_app. simpl.
    by replace (S (length (recorders h)) - (length (recorders h) + 1))%nat with 0%nat by lia.
Qed.

(** X15. A start that fails at the MediaRecorder constructor reports the
    error and does not record, but the microphone stream it had opened keeps
    running; the next stopRecording stops it. *)
Theorem capture_failed_start_keeps_microphone o level h :
  let h' := startRecording o Unsupported level h in
  isRecording h' = isRecording h
  /\ is_Some (errorState h')
  /\ recorders h' = recorders h
  /\ streamRef h' = Some (length (streams h))
  /\ streams h' !! length (streams h) = Some true
  /\ streams (stopRecording h') !! length (streams h) = Some false.
Proof.
  intros h'.
  assert (Hss : streams h' = streams h ++ [true]) by done.
  assert (Hsr : streamRef h' = Some (length (streams h))) by done.
  destruct (stopRecording_streams h') as [Hs _].
  rewrite Hs, Hsr, Hss.
  repeat split; try done.
  - by rewrite lookup_app_r, Nat.sub_diag by lia.
  - apply list_lookup_insert_eq. rewrite length_app. simpl. lia.
Qed.

Lemma stopRecording_keeps_loop h :
  frames (stopRecording h) = frames h
  /\ analyserRef (stopRecording h) = analyserRef h
  /\ silenceTimeoutRef (stopRecording h) = None
  /\ nextTimer (stopRecording h) = nextTimer h.
Proof.
  destruct h as [rec lvl err rs ss cs mr ac an sr ch st ci tm nt fr cp].
  unfold stopRecording; simpl.
  destruct ci as [ci|], st as [st|]; simpl;
    (destruct mr as [r|]; simpl;
     [destruct (rs !! r) as [[state q]|] eqn:Hr; simpl;
      [destruct (decide (state = inactive)) as [->|Hact]; simpl|]|]);
    destruct sr as [s|], ac as [a|]; simpl; done.
Qed.

(** X16. Whether the level is watched during a recording is decided by the
    isRecording state at the moment startRecording is called: called while
    it is false, no animation frame is requested, so the level is read once
    and never again; called while it is true, one frame callback is
    requested. *)
Theorem capture_monitor_loop_depends_on_render o level h :
  frames (startRecording o Granted level h) =
    if isRecording h then frames h ++ [true] else frames h.
Proof.
  destruct h as [rec lvl err rs ss cs mr ac an sr ch st ci tm nt fr cp].
  unfold startRecording, startRecording_in_render, monitorAudioLevel. simpl.
  destruct (Qlt_bool level (silenceThreshold (config o) * 100)), st, rec,
    (onAudioChunk o); done.
Qed.

(** X17. A monitoring loop that is running is not ended by stopRecording:
    the frame callback runs again after the stop, requests the next frame,
    and on a reading below the threshold arms the silence timer of a
    recording that is over. *)
Theorem capture_monitor_loop_outlives_stop o level rest h :
  is_Some (analyserRef h) -> frames h = true :: rest ->
  let h' := step o (EvFrame level) (stopRecording h) in
  frames h' = rest ++ [true]
  /\ (Qlt_bool level (silenceThreshold (config o) * 100) = true ->
      silenceTimeoutRef h' = Some (nextTimer h)
      /\ timers h' =
           timers (stopRecording h) ++
           [(nextTimer h,
             {| task := SilenceStop; delay := silenceDuration (config o) |})]).
Proof.
  intros [a Ha] Hfr h'.
  destruct (stopRecording_keeps_loop h) as (Hf & Han & Hsil & Hnt).
  subst h'. cbn [step]. rewrite Hf, Hfr.
  unfold monitorAudioLevel. cbn [analyserRef set_frames].
  rewrite Han, Ha.
  destruct (Qlt_bool level (silenceThreshold (config o) * 100)) eqn:Hlow.
  - cbn [silenceTimeoutRef set_audioLevel set_frames]. rewrite Hsil.
    unfold setTimer.
    cbn [frames timers silenceTimeoutRef nextTimer set_frames set_audioLevel
         set_silenceTimeoutRef set_timers set_nextTimer].
    rewrite Hnt. by split.
  - cbn [silenceTimeoutRef set_audioLevel set_frames]. rewrite Hsil.
    cbn [frames set_frames set_audioLevel]. by split.
Qed.

Lemma capture_monitor_loop_outlives_stop_witness :
  let h := startRecording default_options Granted 50%Q
             (startRecording default_options Granted 50%Q init) in
  frames (step default_options (EvFrame 0%Q) (stopRecording h)) = [true]
  /\ silenceTimeoutRef (step default_options (EvFrame 0%Q) (stopRecording h))
     = Some (nextTimer h).
Proof.
  intros h.
  destruct (capture_monitor_loop_outlives_stop default_options 0%Q [] h)
    as (Hf & Hs);
    [exists 1%nat; vm_compute; reflexivity | vm_compute; reflexivity |].
  split; [exact Hf|]. apply Hs. vm_compute. reflexivity.
Defined.

Lemma monitor_one_timer_witness :
  let h := startRecording default_options Granted 0%Q init in
  timers (monitorAudioLevel DEFAULT_AUDIO_CONFIG true 0%Q h) = timers h
  /\ silenceTimeoutRef (monitorAudioLevel DEFAULT_AUDIO_CONFIG true 50%Q h) = None
  /\ lookup_timer 1 h = Some {| task := SilenceStop; delay := 1500 |}
  /\ lookup_timer 1 (monitorAudioLevel DEFAULT_AUDIO_CONFIG true 50%Q h) = None.
Proof.
  intros h.
  destruct (monitor_one_timer DEFAULT_AUDIO_CONFIG true 0%Q h 0%nat)
    as [Hlow _]; [vm_compute; reflexivity|].
  destruct (monitor_one_timer DEFAULT_AUDIO_CONFIG true 50%Q h 0%nat)
    as [_ Hhigh]; [vm_compute; reflexivity|].
  destruct (Hlow eq_refl) as [Hkeep _].
  destruct (Hhigh eq_refl) as (Hnone & _ & Hoff).
  split; [apply (Hkeep 1%nat); vm_compute; reflexivity|].
  split; [exact Hnone|]. split; [vm_compute; reflexivity|].
  apply Hoff. vm_compute. reflexivity.
Defined.

End CaptureMore.

(** ** AudioPlaybackQueue: exclusive playback, payloads that cannot play *)

Section PlaybackMore.
Import Playback.

Lemma silent_none_playing l :
  Forall silent l ->
  List.filter (fun p : string * AudioStatus => bool_decide (p.2 = Playing)) l = [].
Proof.
  induction 1 as [|x l Hx Hl IH]; [done|]. simpl.
  by rewrite bool_decide_eq_false_2.
Qed.

(** Under the invariant the element that plays is the last one created,
    and marking it ended or failed leaves none playing. *)
Lemma playing_is_last a payload h :
  exclusive_inv h -> audios h !! a = Some (payload, Playing) ->
  isPlaying h = true
  /\ forall st, st <> Playing -> Forall silent (audios (set_status a st h)).
Proof.
  unfold exclusive_inv, set_status. intros Hinv Ha. rewrite Ha.
  destruct (isPlaying h).
  - destruct Hinv as (l & payload' & Hau & Hl). split; [done|]. intros st Hst.
    simpl. rewrite Hau in Ha |- *.
    apply lookup_app_Some in Ha as [Ha|[Hge Ha]].
    { by destruct (proj1 (Forall_lookup _ _) Hl _ _ Ha). }
    destruct (a - length l)%nat as [|n] eqn:Hd; [|by destruct n].
    replace a with (length l + 0)%nat by lia.
    rewrite insert_app_r. simpl. apply Forall_app. split; [done|].
    by constructor.
  - by destruct (proj1 (Forall_lookup _ _) Hinv _ _ Ha).
Qed.

Lemma exclusive_play seen payload h :
  (seen = false -> Forall silent (audios h)) ->
  (seen = true -> exclusive_inv h) ->
  (seen = true -> isPlaying h = true) ->
  exclusive_inv (playAudio_in_render seen payload h).
Proof.
  intros Hoff Hon Hflag. unfold playAudio_in_render, exclusive_inv.
  destruct seen; simpl.
  - specialize (Hon eq_refl). unfold exclusive_inv in Hon.
    by rewrite Hflag in * by done.
  - destruct (atob_ok payload); simpl; [|by apply Hoff].
    exists (audios h), payload. split; [done|]. by apply Hoff.
Qed.

Lemma exclusive_onended h :
  Forall silent (audios h) -> exclusive_inv (onended h).
Proof.
  intros Hs. unfold onended.
  set (h1 := set_currentAudioRef None (set_isPlaying false h)).
  destruct (audioQueueRef h1) as [|next rest]; [done|].
  case_decide; [done|]. by apply exclusive_play.
Qed.

Lemma exclusive_step e h :
  latest_closure e = true -> exclusive_inv h -> exclusive_inv (step e h).
Proof.
  intros Hlatest Hinv.
  destruct e as [payload|a|a|a|seen payload]; [| | | |done]; cbn [step].
  - unfold playAudio. apply exclusive_play.
    + intros Hp. unfold exclusive_inv in Hinv. by rewrite Hp in Hinv.
    + done.
    + done.
  - destruct (audios h !! a) as [[payload []]|] eqn:Ha; try done.
    destruct (playing_is_last a payload h Hinv Ha) as [_ Hsilent].
    specialize (Hsilent Ended ltac:(done)). by apply exclusive_onended.
  - destruct (audios h !! a) as [[payload []]|] eqn:Ha; try done.
    destruct (playing_is_last a payload h Hinv Ha) as [_ Hsilent].
    by specialize (Hsilent Failed ltac:(done)).
  - destruct (audios h !! a) as [[payload []]|] eqn:Ha; try done.
    destruct (playing_is_last a payload h Hinv Ha) as [_ Hsilent].
    by specialize (Hsilent Failed ltac:(done)).
Qed.

Lemma exclusive_run evs h :
  forallb latest_closure evs = true -> exclusive_inv h ->
  exclusive_inv (run evs h).
Proof.
  revert h. induction evs as [|e evs IH]; intros h Hall Hinv; [done|].
  simpl in Hall. apply andb_prop in Hall as [He Hevs].
  change (run (e :: evs) h) with (run evs (step e h)).
  apply IH; [done|]. by apply exclusive_step.
Qed.

(** X19. In every run in which each call of playAudio goes through the
    closure of the latest render, so that it reads the current isPlaying,
    two elements never play at once and the isPlaying flag is exact,
    whatever is enqueued (empty and undecodable payloads included) and
    whichever elements end, fail or are refused by play().  The condition
    cannot be dropped: a call through a closure that saw isPlaying = false
    starts its payload next to whatever plays already and queues nothing,
    so two calls in a row through one closure play at once. *)
Theorem playback_overlaps_only_through_stale_closure :
  (forall evs, forallb latest_closure evs = true ->
     (length (now_playing (run evs init)) <= 1)%nat
     /\ (isPlaying (run evs init) = true <-> now_playing (run evs init) <> []))
  /\ (forall payload h, atob_ok payload = true ->
        now_playing (step (EnqueueSeen false payload) h) =
          now_playing h ++ [payload]
        /\ audioQueueRef (step (EnqueueSeen false payload) h) = audioQueueRef h).
Proof.
  split.
  - intros evs Hall.
    assert (Hinv : exclusive_inv (run evs init))
      by (apply exclusive_run; [done | constructor]).
    unfold exclusive_inv in Hinv. unfold now_playing.
    destruct (isPlaying (run evs init)).
    + destruct Hinv as (l & payload & -> & Hl).
      rewrite List.filter_app, silent_none_playing by done. simpl.
      split; [lia|]. done.
    + rewrite silent_none_playing by done. simpl. split; [lia|].
      split; [done|]. by intros [].
  - intros payload h Hok. cbn [step]. unfold playAudio_in_render, now_playing.
    simpl. rewrite Hok. simpl. split; [|done].
    by rewrite List.filter_app, fmap_app.
Qed.

Lemma playback_overlaps_only_through_stale_closure_witness :
  (length (now_playing (run [Enqueue "QQ=="; Enqueue "Qg=="] init)) <= 1)%nat
  /\ now_playing (run [EnqueueSeen false "QQ=="; EnqueueSeen false "Qg=="] init)
     = ["QQ=="; "Qg=="]%string.
Proof.
  destruct playback_overlaps_only_through_stale_closure as [Hone Htwo].
  split.
  - apply (Hone [Enqueue "QQ=="; Enqueue "Qg=="]). reflexivity.
  - change (run [EnqueueSeen false "QQ=="; EnqueueSeen false "Qg=="] init)
      with (step (EnqueueSeen false "Qg==")
              (step (EnqueueSeen false "QQ==") init)).
    destruct (Htwo "Qg=="%string (step (EnqueueSeen false "QQ==") init))
      as [-> _]; [reflexivity|].
    destruct (Htwo "QQ=="%string init) as [-> _]; reflexivity.
Defined.

(** X20. A payload that cannot play stops the queue when its turn comes: if
    the head of the queue is empty or is refused by atob, the ended event
    before it removes it, starts nothing and leaves isPlaying false, and the
    payloads behind it stay in the queue. *)
Theorem playback_bad_head_stalls a payload next rest h :
  audios h !! a = Some (payload, Playing) ->
  audioQueueRef h = next :: rest ->
  next = ""%string \/ atob_ok next = false ->
  let h' := step (EvEnded a) h in
  isPlaying h' = false
  /\ audioQueueRef h' = rest
  /\ play_order h' = play_order h.
Proof.
  intros Ha Hq Hbad h'. subst h'. cbn [step]. rewrite Ha.
  unfold onended, set_status, play_order. rewrite Ha. simpl. rewrite Hq.
  assert (Horder : (<[a:=(payload, Ended)]> (audios h)).*1 = (audios h).*1).
  { rewrite list_fmap_insert. simpl. apply list_insert_id.
    by rewrite list_lookup_fmap, Ha. }
  destruct (decide (next = ""%string)) as [->|Hne]; simpl.
  - by rewrite Horder.
  - destruct Hbad as [?|Hbad]; [done|].
    unfold playAudio_in_render. simpl. rewrite Hbad. simpl. by rewrite Horder.
Qed.

Lemma playback_bad_head_stalls_witness :
  let h := run [Enqueue "QQ=="; Enqueue ""; Enqueue "Qg=="] init in
  isPlaying (step (EvEnded 0%nat) h) = false
  /\ audioQueueRef (step (EvEnded 0%nat) h) = ["Qg=="%string]
  /\ play_order (step (EvEnded 0%nat) h) = ["QQ=="%string].
Proof.
  intros h.
  destruct (playback_bad_head_stalls 0%nat "QQ==" "" ["Qg=="%string] h)
    as (Hp & Hq & Ho); [reflexivity | reflexivity | by left |].
  split; [exact Hp|]. split; [exact Hq|]. rewrite Ho. reflexivity.
Defined.

Lemma playback_fifo_without_failures_witness :
  let evs := [Enqueue "QQ=="; Enqueue "Qg=="; EvEnded 0%nat; Enqueue "Qw=="] in
  play_order (run evs init) ++ audioQueueRef (run evs init) =
    ["QQ=="; "Qg=="; "Qw=="]%string.
Proof.
  intros evs.
  destruct (playback_fifo_without_failures evs) as (Ho & _).
  - repeat constructor; discriminate.
  - exact Ho.
Defined.

End PlaybackMore.

(** ** VoiceSessionController: what an inbound message can and cannot do *)

Section ControllerMore.
Import Voice Controller.

(** X22. The conversation log only grows: an inbound message leaves every
    entry in place and appends at most one, an agent entry stamped with the
    arrival time. *)
Theorem controller_log_is_append_only now m p :
  exists l,
    transcriptions (interactionState (deliver now m p)) =
      transcriptions (interactionState p) ++ l
    /\ (length l <= 1)%nat
    /\ Forall (fun e => speaker e = agent /\ timestamp e = now) l.
Proof.
  unfold deliver, onMessage, on_response.
  destruct m as [ty st tx au ci fs li er]; simpl.
  destruct ty, st, (truthy tx), (truthy ci), (truthy li), (truthy au); simpl;
    first [ exists []; rewrite app_nil_r;
            split; [reflexivity|split; [simpl; lia|constructor]]
          | eexists [_];
            split; [reflexivity|split; [simpl; lia|by repeat constructor]] ].
Qed.

(** X23. The agent state follows the state messages and nothing else: a
    state message that carries a state sets it, and no other message (a
    response, a transcription, an error) changes it. *)
Theorem controller_state_follows_state_messages now m p :
  agentState (interactionState (deliver now m p)) =
    match type m, msg_state m with
    | state, Some s => s
    | _, _ => agentState (interactionState p)
    end.
Proof.
  unfold deliver, onMessage, on_response.
  destruct m as [ty st tx au ci fs li er]; simpl.
  destruct ty, st, (truthy tx), (truthy ci), (truthy li), (truthy au); done.
Qed.

(** X24. A response with text and both identifiers is handled to the end:
    one agent entry with its text, the identifiers adopted, the session
    saved under them, playAudio called exactly when the audio payload is
    present and not empty, and the pending transcription text cleared. *)
Theorem controller_handled_response now t audio c l p :
  t <> ""%string -> c <> ""%string -> l <> ""%string ->
  let p' := deliver now (response_message t audio (Some c) (Some l)) p in
  transcriptions (interactionState p') =
    transcriptions (interactionState p) ++
    [{| id := (now, agent); timestamp := now; speaker := agent;
        entry_text := t; entry_state := speaking |}]
  /\ conversationId (interactionState p') = Some c
  /\ leadId (interactionState p') = Some l
  /\ effects p' =
       effects p ++ [SaveSession c l; ResponseReceived c]
       ++ match truthy audio with Some a => [PlayAudio a] | None => [] end
  /\ currentTranscription p' = ""%string.
Proof.
  intros Ht Hc Hl. unfold deliver, onMessage, on_response, truthy. simpl.
  rewrite (decide_False (P := t = ""%string)) by done.
  rewrite (decide_False (P := c = ""%string)) by done.
  rewrite (decide_False (P := l = ""%string)) by done. simpl.
  destruct audio as [a|]; [destruct (decide (a = ""%string))|]; simpl;
    rewrite <- ?app_assoc; done.
Qed.

Lemma controller_handled_response_witness :
  effects (deliver 2 (response_message "ok" (Some ""%string) (Some "c1"%string)
                        (Some "l1"%string)) (initial_page None None))
  = [SaveSession "c1" "l1"; ResponseReceived "c1"].
Proof.
  destruct (controller_handled_response 2 "ok" (Some ""%string) "c1" "l1"
              (initial_page None None)) as (_ & _ & _ & He & _);
    [discriminate | discriminate | discriminate |].
  exact He.
Defined.

(** X25. playAudio is called at most once per inbound message, only for a
    response, and never with an empty payload. *)
Theorem controller_plays_only_real_audio now m p :
  exists l,
    playAudio_calls (deliver now m p) = playAudio_calls p ++ l
    /\ (l = [] \/ exists a, l = [a] /\ a <> ""%string
                          /\ audio_base64 m = Some a /\ type m = response).
Proof.
  assert (Htruthy : forall v a, truthy v = Some a -> v = Some a /\ a <> ""%string).
  { intros [s|] a; simpl; [|done]. case_decide; [done|]. by intros [= <-]. }
  unfold deliver, onMessage, on_response, playAudio_calls.
  destruct m as [ty st tx au ci fs li er]; simpl.
  destruct ty, st, (truthy tx), (truthy ci), (truthy li),
    (truthy au) as [pay|] eqn:Hau; simpl;
    rewrite ?omap_app; simpl; rewrite ?app_nil_r;
    first [ by (exists []; rewrite ?app_nil_r; split; [done|by left])
          | (exists [pay]; split; [done|right; exists pay];
             destruct (Htruthy _ _ Hau); by repeat split) ].
Qed.

(** X26. No inbound message takes an identifier away: a conversationId or
    leadId that the page holds is still held after the message. *)
Theorem controller_ids_never_dropped now m p :
  (is_Some (conversationId (interactionState p)) ->
   is_Some (conversationId (interactionState (deliver now m p))))
  /\ (is_Some (leadId (interactionState p)) ->
      is_Some (leadId (interactionState (deliver now m p)))).
Proof.
  unfold deliver, onMessage, on_response.
  destruct m as [ty st tx au ci fs li er]; simpl.
  destruct ty, st, (truthy tx), (truthy ci), (truthy li), (truthy au); simpl; eauto.
Qed.

Lemma controller_ids_never_dropped_witness :
  is_Some (conversationId (interactionState
    (deliver 3 (response_message "x" None None None)
       (initial_page (Some "c0"%string) None)))).
Proof.
  apply (controller_ids_never_dropped 3 (response_message "x" None None None)
           (initial_page (Some "c0"%string) None)).
  by eexists.
Defined.

(** X27. An error message does not end the conversation: the log, the
    identifiers, the agent state and the active flag stay as they are; the
    error field takes the message's error text (null when it is absent or
    empty), and one toast and one tracked error are raised. *)
Theorem controller_error_keeps_conversation now m p :
  type m = Voice.error ->
  let p' := deliver now m p in
  transcriptions (interactionState p') = transcriptions (interactionState p)
  /\ conversationId (interactionState p') = conversationId (interactionState p)
  /\ leadId (interactionState p') = leadId (interactionState p)
  /\ agentState (interactionState p') = agentState (interactionState p)
  /\ isActive (interactionState p') = isActive (interactionState p)
  /\ error (interactionState p') = truthy (msg_error m)
  /\ effects p' =
       effects p ++ [Toast (default "Ocorreu um erro"%string (truthy (msg_error m)));
                     TrackError (default "Unknown error"%string (truthy (msg_error m)))].
Proof.
  destruct m as [ty st tx au ci fs li er]. simpl. intros ->.
  unfold deliver, onMessage, on_error_message. simpl.
  rewrite <- app_assoc. done.
Qed.

Lemma controller_error_keeps_conversation_witness :
  let m := {| type := Voice.error; msg_state := None; text := None;
              audio_base64 := None; conversation_id := None;
              functionalities := None; lead_id := None; msg_error := None |} in
  effects (deliver 4 m (initial_page (Some "c0"%string) None))
    = [Toast "Ocorreu um erro"; TrackError "Unknown error"]
  /\ conversationId (interactionState (deliver 4 m (initial_page (Some "c0"%string) None)))
     = Some "c0"%string.
Proof.
  intros m.
  destruct (controller_error_keeps_conversation 4 m
              (initial_page (Some "c0"%string) None)) as (_ & Hc & _ & _ & _ & _ & He);
    [reflexivity|].
  split; [exact He | exact Hc].
Defined.

End ControllerMore.
